(** * Case converters: toCamelCase, toDotCase, toKebabCase

    A shallow embedding of the string case converters of the repository
    (refined_prompt.js, basic_prompt.js and the kebab-case converter), with
    the parts of the ECMAScript String and RegExp built-ins they call:
    [trim], [split], [match], [test], [join], [toLowerCase], [toUpperCase].

    A JavaScript string is a sequence of UTF-16 code units; the regular
    expressions of the sources carry no [u] flag, so they match code unit by
    code unit.  Regular expression literals are kept as syntax trees and run
    by a backtracking matcher that follows the continuation-passing matchers
    of the ECMAScript specification. *)

From Stdlib Require Import String Ascii Floats Bool Arith NArith ZArith Lia List.
Import ListNotations.

Set Implicit Arguments.
Set Warnings "-register-all,-abstract-large-number".

(** ** Code units and strings *)

(** A code unit is a number below 2^16.  Nothing below depends on the
    bound, so the results hold of every list of numbers. *)
Definition codeunit := N.
Definition jsstring := list codeunit.

(** The code unit of an ASCII character, and the string of a literal. *)
Definition ch (a : ascii) : codeunit := N_of_ascii a.
Definition str (s : string) : jsstring := map ch (list_ascii_of_string s).

Definition inRange (lo hi c : codeunit) : bool := (lo <=? c)%N && (c <=? hi)%N.

Definition isUpper (c : codeunit) : bool := inRange (ch "A") (ch "Z") c.
Definition isLower (c : codeunit) : bool := inRange (ch "a") (ch "z") c.
Definition isDigit (c : codeunit) : bool := inRange (ch "0") (ch "9") c.
Definition isAlnum (c : codeunit) : bool := isUpper c || isLower c || isDigit c.

(** WhiteSpace and LineTerminator of ECMAScript: what [trim] strips and what
    the class escape [\s] matches.  All of them are in the basic plane. *)
Definition isWhiteSpace (c : codeunit) : bool :=
  (inRange 9 13 c         (* TAB, LF, VT, FF, CR *)
   || (c =? 32)           (* SPACE *)
   || (c =? 160)          (* NO-BREAK SPACE *)
   || (c =? 5760)         (* OGHAM SPACE MARK *)
   || inRange 8192 8202 c (* EN QUAD .. HAIR SPACE *)
   || (c =? 8232)         (* LINE SEPARATOR *)
   || (c =? 8233)         (* PARAGRAPH SEPARATOR *)
   || (c =? 8239)         (* NARROW NO-BREAK SPACE *)
   || (c =? 8287)         (* MEDIUM MATHEMATICAL SPACE *)
   || (c =? 12288)        (* IDEOGRAPHIC SPACE *)
   || (c =? 65279))%N.    (* ZERO WIDTH NO-BREAK SPACE *)

(** ** JavaScript values, [typeof], errors *)

Inductive JsValue : Type :=
| JUndefined
| JNull
| JBoolean (b : bool)
| JNumber (x : float)
| JBigInt (n : Z)
| JString (s : jsstring)
| JSymbol (description : option jsstring)
| JFunction (name : string)
| JArray (elems : list JsValue)
| JObject (props : list (string * JsValue)).

Definition typeof (v : JsValue) : string :=
  match v with
  | JUndefined => "undefined"
  | JNull => "object"
  | JBoolean _ => "boolean"
  | JNumber _ => "number"
  | JBigInt _ => "bigint"
  | JString _ => "string"
  | JSymbol _ => "symbol"
  | JFunction _ => "function"
  | JArray _ => "object"
  | JObject _ => "object"
  end.

(** [Boolean(v)]: what [!v] negates.  The falsy values are [undefined],
    [null], [false], the zeros and NaN, [0n] and the empty string. *)
Definition toBoolean (v : JsValue) : bool :=
  match v with
  | JUndefined => false
  | JNull => false
  | JBoolean b => b
  | JNumber x => negb (PrimFloat.is_zero x || PrimFloat.is_nan x)
  | JBigInt n => negb (n =? 0)%Z
  | JString s => match s with [] => false | _ :: _ => true end
  | JSymbol _ => true
  | JFunction _ => true
  | JArray _ => true
  | JObject _ => true
  end.

(** [v.split] for a value that is not a string.  The prototypes of the
    other primitives, of arrays and of functions have no [split]; a plain
    object has the properties it was given. *)
Definition getSplit (v : JsValue) : JsValue :=
  match v with
  | JObject props =>
      match find (fun kv => String.eqb (fst kv) "split") props with
      | Some kv => snd kv
      | None => JUndefined
      end
  | _ => JUndefined
  end.

Inductive JsError : Type :=
| TypeError (message : string)
| Error (message : string).

(** The completion of a call: a returned string or a thrown error. *)
Inductive Completion : Type :=
| Return (s : jsstring)
| Throw (e : JsError).

(** ** Regular expressions *)

Module RegExp.

(** Syntax of the patterns the sources use.  A class is a list of ranges,
    negated or not.  Capturing groups are kept in the tree; the patterns have
    no back-references, so what a group captured never affects a match, and
    the match state holds no captures. *)
Inductive regex : Type :=
| RSet (negated : bool) (ranges : list (codeunit * codeunit))
| RSpace
| RSeq (r1 r2 : regex)
| RAlt (r1 r2 : regex)
| RPlus (r : regex)
| ROpt (r : regex)
| RLook (r : regex)
| RGroup (r : regex)
| RBol
| REol.

Record MatchState : Type := mkState { endIndex : nat; remaining : jsstring }.

Definition Continuation := MatchState -> option MatchState.
Definition Matcher := MatchState -> Continuation -> option MatchState.

Definition inSet (negated : bool) (ranges : list (codeunit * codeunit)) (c : codeunit) : bool :=
  xorb negated (existsb (fun r => inRange (fst r) (snd r) c) ranges).

Definition charMatcher (p : codeunit -> bool) : Matcher :=
  fun x c =>
    match remaining x with
    | a :: t => if p a then c (mkState (S (endIndex x)) t) else None
    | [] => None
    end.

(** RepeatMatcher with min = 0, max = infinity, greedy: one more iteration
    of [m] is tried first, and an iteration that consumes nothing is
    rejected.  Every accepted iteration consumes a code unit, so the number
    of code units left bounds the iterations; [fuel] is that bound. *)
Fixpoint repeatMatcher (m : Matcher) (fuel : nat) (x : MatchState) (c : Continuation)
  : option MatchState :=
  match fuel with
  | O => c x
  | S fuel' =>
      match m x (fun y => if endIndex y =? endIndex x then None
                          else repeatMatcher m fuel' y c) with
      | Some z => Some z
      | None => c x
      end
  end.

Fixpoint compile (r : regex) : Matcher :=
  match r with
  | RSet negated ranges => charMatcher (inSet negated ranges)
  | RSpace => charMatcher isWhiteSpace
  | RSeq r1 r2 => fun x c => compile r1 x (fun y => compile r2 y c)
  | RAlt r1 r2 =>
      fun x c =>
        match compile r1 x c with
        | Some z => Some z
        | None => compile r2 x c
        end
  | RPlus r1 =>
      fun x c =>
        compile r1 x (fun y => repeatMatcher (compile r1) (length (remaining y)) y c)
  | ROpt r1 =>
      fun x c =>
        match compile r1 x (fun y => if endIndex y =? endIndex x then None else c y) with
        | Some z => Some z
        | None => c x
        end
  | RLook r1 =>
      fun x c =>
        match compile r1 x Some with
        | Some _ => c x
        | None => None
        end
  | RGroup r1 => compile r1
  | RBol => fun x c => if endIndex x =? 0 then c x else None
  | REol => fun x c => match remaining x with [] => c x | _ :: _ => None end
  end.

(** RegExpBuiltinExec without the sticky flag: the first index from [i] on
    at which the pattern matches; [s] is the input from index [i]. The
    result holds the index of the match, the input from there, and the state
    at the end of the match. *)
Fixpoint search (m : Matcher) (i : nat) (s : jsstring) : option (nat * jsstring * MatchState) :=
  match m (mkState i s) Some with
  | Some e => Some (i, s, e)
  | None =>
      match s with
      | [] => None
      | _ :: t => search m (S i) t
      end
  end.

(** [re.test(s)] for a literal without the [g] and [y] flags: lastIndex is 0. *)
Definition test (r : regex) (s : jsstring) : bool :=
  match search (compile r) 0 s with
  | Some _ => true
  | None => false
  end.

(** The loop of [s.match(re)] for a literal with the [g] flag: every match
    from lastIndex on, in order; after an empty match lastIndex advances by
    one.  Each round leaves fewer code units, so [S (length s)] rounds are
    enough. *)
Fixpoint matchLoop (m : Matcher) (fuel : nat) (i : nat) (s : jsstring) : list jsstring :=
  match fuel with
  | O => []
  | S fuel' =>
      match search m i s with
      | None => []
      | Some (b, sb, e) =>
          firstn (endIndex e - b) sb ::
            (if endIndex e =? b then
               match remaining e with
               | [] => []
               | _ :: t => matchLoop m fuel' (S (endIndex e)) t
               end
             else matchLoop m fuel' (endIndex e) (remaining e))
      end
  end.

(** [s.match(re)], [re] global: [None] is JavaScript's [null]. *)
Definition String_match (s : jsstring) (r : regex) : option (list jsstring) :=
  match matchLoop (compile r) (S (length s)) 0 s with
  | [] => None
  | l => Some l
  end.

(** The loop of [s.split(re)] (no limit; the patterns given to [split] have
    no capturing group, so nothing is spliced between the pieces).  [p] is
    the start of the current piece, [q] the index tried next, [piece] the
    code units from [p] to [q], [s] the input from [q]. *)
Fixpoint splitLoop (m : Matcher) (fuel : nat) (p : nat) (piece : jsstring) (q : nat)
  (s : jsstring) : list jsstring :=
  match fuel with
  | O => [piece ++ s]
  | S fuel' =>
      match s with
      | [] => [piece]
      | a :: t =>
          match m (mkState q s) Some with
          | None => splitLoop m fuel' p (piece ++ [a]) (S q) t
          | Some e =>
              if endIndex e =? p then splitLoop m fuel' p (piece ++ [a]) (S q) t
              else piece :: splitLoop m fuel' (endIndex e) [] (endIndex e) (remaining e)
          end
      end
  end.

Definition String_split (s : jsstring) (r : regex) : list jsstring :=
  match s with
  | [] => match compile r (mkState 0 []) Some with
          | Some _ => []
          | None => [[]]
          end
  | _ :: _ => splitLoop (compile r) (S (2 * length s)) 0 [] 0 s
  end.

End RegExp.

Import RegExp.

(** ** String and Array built-ins *)

Fixpoint trimStart (s : jsstring) : jsstring :=
  match s with
  | c :: t => if isWhiteSpace c then trimStart t else s
  | [] => []
  end.

Definition trimEnd (s : jsstring) : jsstring := rev (trimStart (rev s)).

Definition trim (s : jsstring) : jsstring := trimEnd (trimStart s).

(** [Boolean(s)] for a string: the empty string is the only falsy one. *)
Definition truthy (s : jsstring) : bool :=
  match s with [] => false | _ :: _ => true end.

(** [parts.join(sep)] on an array of strings. *)
Fixpoint join (sep : jsstring) (parts : list jsstring) : jsstring :=
  match parts with
  | [] => []
  | [p] => p
  | p :: ps => p ++ sep ++ join sep ps
  end.

(** [parts.map((word, idx) => ...)]. *)
Fixpoint mapi {A B : Type} (f : A -> nat -> B) (idx : nat) (l : list A) : list B :=
  match l with
  | [] => []
  | a :: t => f a idx :: mapi f (S idx) t
  end.

Definition isAscii (c : codeunit) : bool := (c <? 128)%N.

Definition asciiLower (c : codeunit) : codeunit :=
  if isUpper c then (c + 32)%N else c.

Definition asciiUpper (c : codeunit) : codeunit :=
  if isLower c then (c - 32)%N else c.

(** ** The patterns of the sources *)

Definition upperSet : regex := RSet false [(ch "A", ch "Z")].
Definition lowerSet : regex := RSet false [(ch "a", ch "z")].
Definition digitSet : regex := RSet false [(ch "0", ch "9")].

(** [/[^A-Za-z0-9]+/] *)
Definition sepRe : regex :=
  RPlus (RSet true [(ch "A", ch "Z"); (ch "a", ch "z"); (ch "0", ch "9")]).

(** [/([A-Z]+(?=[A-Z][a-z]))|([A-Z]?[a-z]+)|([A-Z]+)|([0-9]+)/g] *)
Definition tokenRe : regex :=
  RAlt (RGroup (RSeq (RPlus upperSet) (RLook (RSeq upperSet lowerSet))))
    (RAlt (RGroup (RSeq (ROpt upperSet) (RPlus lowerSet)))
       (RAlt (RGroup (RPlus upperSet))
          (RGroup (RPlus digitSet)))).

(** [/^[0-9]+$/] *)
Definition digitsRe : regex := RSeq RBol (RSeq (RPlus digitSet) REol).

(** [/\s+/] *)
Definition spaceRe : regex := RPlus RSpace.

(** ** Scanners

    Plain list functions that the lemmas below relate to the pattern
    matcher: what a pattern of the sources matches, stated without the
    matcher. *)

Fixpoint takeWhile (p : codeunit -> bool) (s : jsstring) : jsstring :=
  match s with
  | a :: t => if p a then a :: takeWhile p t else []
  | [] => []
  end.

Fixpoint dropWhile (p : codeunit -> bool) (s : jsstring) : jsstring :=
  match s with
  | a :: t => if p a then dropWhile p t else s
  | [] => []
  end.

Definition startsWith (p : codeunit -> bool) (s : jsstring) : bool :=
  match s with
  | a :: _ => p a
  | [] => false
  end.

Definition endsWith (p : codeunit -> bool) (s : jsstring) : bool :=
  startsWith p (rev s).

(** A greedy run of code units in [p] from index [i], then [c]: the longest
    run first, then the shorter ones. *)
Fixpoint greedyRun (p : codeunit -> bool) (i : nat) (s : jsstring) (c : Continuation)
  : option MatchState :=
  match s with
  | a :: t =>
      if p a then
        match greedyRun p (S i) t c with
        | Some z => Some z
        | None => c (mkState i s)
        end
      else c (mkState i s)
  | [] => c (mkState i [])
  end.

(** A greedy run of at least one code unit in [p]. *)
Definition plusRun (p : codeunit -> bool) (i : nat) (s : jsstring) (c : Continuation)
  : option MatchState :=
  match s with
  | a :: t => if p a then greedyRun p (S i) t c else None
  | [] => None
  end.

Definition isSeparator (c : codeunit) : bool := negb (isAlnum c).

(** The pieces between the maximal runs of code units in [p], the empty
    pieces at both ends included: [piece] is the piece being read, [inSep]
    says that the last code unit read was in [p]. *)
Fixpoint fields (p : codeunit -> bool) (inSep : bool) (piece s : jsstring) : list jsstring :=
  match s with
  | [] => [piece]
  | a :: t =>
      if p a then (if inSep then fields p true [] t else piece :: fields p true [] t)
      else fields p false (piece ++ [a]) t
  end.

(** The maximal runs of code units outside [p], none of them empty. *)
Fixpoint words (p : codeunit -> bool) (piece s : jsstring) : list jsstring :=
  match s with
  | [] => if truthy piece then [piece] else []
  | a :: t =>
      if p a then (if truthy piece then piece :: words p [] t else words p [] t)
      else words p (piece ++ [a]) t
  end.

(** The first token of the boundary scan and what it leaves, by the four
    alternatives of [tokenRe] in order. *)
Definition nextToken (s : jsstring) : option (jsstring * jsstring) :=
  match s with
  | [] => None
  | a :: t =>
      if isUpper a then
        let run := takeWhile isUpper s in
        let after := dropWhile isUpper s in
        if startsWith isLower after then
          match t with
          | b :: _ =>
              if isUpper b then Some (removelast run, last run a :: after)
              else Some (a :: takeWhile isLower t, dropWhile isLower t)
          | [] => Some (run, after)
          end
        else Some (run, after)
      else if isLower a then Some (takeWhile isLower s, dropWhile isLower s)
      else if isDigit a then Some (takeWhile isDigit s, dropWhile isDigit s)
      else None
  end.

Fixpoint scan (fuel : nat) (s : jsstring) : list jsstring :=
  match fuel with
  | O => []
  | S fuel' =>
      match nextToken s with
      | None => []
      | Some (tok, rest) => tok :: scan fuel' rest
      end
  end.

(** The tokens of the boundary scan of a string of letters and digits. *)
Definition boundaryTokens (s : jsstring) : list jsstring := scan (length s) s.

(** Every maximal run of white space replaced by one hyphen. *)
Fixpoint collapseWhiteSpace (inRun : bool) (s : jsstring) : jsstring :=
  match s with
  | [] => []
  | a :: t =>
      if isWhiteSpace a then
        (if inRun then collapseWhiteSpace true t else ch "-" :: collapseWhiteSpace true t)
      else a :: collapseWhiteSpace false t
  end.

(** A matcher that behaves as a run of one or more code units in [p]. *)
Definition runs (m : Matcher) (p : codeunit -> bool) : Prop :=
  forall i s, m (mkState i s) Some = plusRun p i s Some.

(** The continuation of [[A-Z]+] in the first alternative of [tokenRe]: the
    look-ahead [(?=[A-Z][a-z])]. *)
Definition lookUpperLower : Continuation :=
  fun y => compile (RLook (RSeq upperSet lowerSet)) y Some.

(** A token: not empty, ASCII letters and digits only. *)
Definition token (w : jsstring) : Prop := truthy w = true /\ forallb isAlnum w = true.

(** A run of separators, not empty, and the token after it. *)
Definition separated (p : jsstring * jsstring) : Prop :=
  fst p <> [] /\ forallb isSeparator (fst p) = true /\ token (snd p).

(** A string given by its parts: [lead], a token, then runs of separators
    each followed by a token, then [trail]. *)
Definition spaced (lead w0 : jsstring) (rest : list (jsstring * jsstring)) (trail : jsstring)
  : jsstring :=
  lead ++ w0 ++ concat (map (fun p => fst p ++ snd p) rest) ++ trail.

(** A code unit of a dot.case result: an ASCII letter, a digit or a dot. *)
Definition isDotCaseUnit (c : codeunit) : bool := isAlnum c || (c =? ch ".")%N.

(** ** The task list of the Express server (few_shot_prompt.js, lines 30-63)

    The routes as functions of the task list, which is the state the
    handlers share.  A POST request is given by the [text] of its body,
    [undefined] when the body has none. *)

Module TaskServer.

Definition initialTasks : list JsValue :=
  map (fun s => JString (str s))
    ["Write a diary entry from the future";
     "Create a time machine from a cardboard box";
     "Plan a trip to the dinosaurs";
     "Draw a futuristic city";
     "List items to bring on a time-travel adventure"]%string.

Inductive Request : Type :=
| GetRoot
| GetTasks
| PostTasks (text : JsValue).

Inductive Body : Type :=
| Send (text : string)
| JsonTasks (tasks : list JsValue)
| JsonMessage (message : string)
| JsonError (error : string).

Record Response : Type := mkResponse { status : nat; body : Body }.

Definition quote : string := String (ascii_of_nat 34) EmptyString.

(** [Invalid payload, expected { "text": "..." }] *)
Definition invalidPayload : string :=
  ("Invalid payload, expected { " ++ quote ++ "text" ++ quote ++ ": "
     ++ quote ++ "..." ++ quote ++ " }")%string.

Definition handle (tasks : list JsValue) (req : Request) : list JsValue * Response :=
  match req with
  | GetRoot => (tasks, mkResponse 200 (Send "Hello World"))
  | GetTasks => (tasks, mkResponse 200 (JsonTasks tasks))
  | PostTasks text =>
      if negb (toBoolean text) || negb (String.eqb (typeof text) "string")
      then (tasks, mkResponse 400 (JsonError invalidPayload))
      else (tasks ++ [text], mkResponse 200 (JsonMessage "Task added successfully"))
  end.

(** The requests served one after the other. *)
Fixpoint serve (tasks : list JsValue) (reqs : list Request) : list JsValue * list Response :=
  match reqs with
  | [] => (tasks, [])
  | req :: reqs' =>
      let (tasks', res) := handle tasks req in
      let (tasks'', ress) := serve tasks' reqs' in
      (tasks'', res :: ress)
  end.

(** The texts that the requests add: the non-empty strings that were
    posted, in the order of the requests. *)
Fixpoint accepted (reqs : list Request) : list JsValue :=
  match reqs with
  | [] => []
  | PostTasks (JString (c :: s)) :: reqs' => JString (c :: s) :: accepted reqs'
  | _ :: reqs' => accepted reqs'
  end.

Definition isTask (v : JsValue) : Prop :=
  exists c s, v = JString (c :: s).

End TaskServer.

(** ** The converters *)

Section Converters.

(** [toLowerCase] and [toUpperCase] map the ASCII letters and leave the other
    ASCII code units alone.  On a string that holds a code unit outside
    ASCII they follow the Unicode case mappings, which depend on context and
    may change the length; those are left open here, and every result below
    holds whatever they are. *)
Variable unicodeLower : jsstring -> jsstring.
Variable unicodeUpper : jsstring -> jsstring.

Definition toLowerCase (s : jsstring) : jsstring :=
  if forallb isAscii s then map asciiLower s else unicodeLower s.

Definition toUpperCase (s : jsstring) : jsstring :=
  if forallb isAscii s then map asciiUpper s else unicodeUpper s.

(** *** refined_prompt.js *)

(** The tokenizer, lines 126-140 of [toCamelCase] and, word for word, lines
    203-211 of [toDotCase]; [s] is the trimmed input. *)
Definition tokenize (s : jsstring) : list jsstring :=
  let hasSeparators := test sepRe s in
  if hasSeparators then filter truthy (String_split s sepRe)
  else match String_match s tokenRe with
       | Some parts => parts
       | None => [s]
       end.

Definition lower (s : jsstring) : jsstring := toLowerCase s.

Definition capitalize (s : jsstring) : jsstring :=
  match s with
  | [] => []
  | c :: t => toUpperCase [c] ++ toLowerCase t
  end.

(** Lines 142-153 of [toCamelCase]. *)
Definition renderLowerCamel (parts : list jsstring) : jsstring :=
  match parts with
  | [] => []
  | p0 :: ps =>
      let first := lower p0 in
      let rest := join [] (map (fun p => if test digitsRe p then p else capitalize p) ps) in
      first ++ rest
  end.

Definition toCamelCase (input : JsValue) : Completion :=
  match input with
  | JNull | JUndefined =>
      Throw (TypeError "toCamelCase: input must be a string, received null/undefined")
  | JString s =>
      match trim s with
      | [] => Return []
      | trimmed => Return (renderLowerCamel (tokenize trimmed))
      end
  | _ => Throw (TypeError ("toCamelCase: expected string but received " ++ typeof input))
  end.

(** Line 213 of [toDotCase]. *)
Definition renderDotCase (parts : list jsstring) : jsstring :=
  join (str ".") (map (fun p => toLowerCase p) parts).

Definition toDotCase (input : JsValue) : Completion :=
  match input with
  | JNull | JUndefined =>
      Throw (TypeError "toDotCase: input must be a string, received null/undefined")
  | JString s =>
      match trim s with
      | [] => Return []
      | trimmed => Return (renderDotCase (tokenize trimmed))
      end
  | _ => Throw (TypeError ("toDotCase: expected string but received " ++ typeof input))
  end.

(** *** basic_prompt.js *)

Definition toCamelCase_basic (input : JsValue) : Completion :=
  match input with
  | JString s =>
      Return
        (join []
           (mapi (fun word idx =>
                    let lower := toLowerCase word in
                    if idx =? 0 then lower
                    else toUpperCase (firstn 1 lower) ++ skipn 1 lower)
              0 (filter truthy (String_split (trim s) sepRe))))
  | _ => Return []
  end.

(** *** few_shot_prompt.js *)

(** What the call makes of an object whose [split] is a function: it runs
    that function, which is not part of this code, so the completion is left
    open. *)
Variable userSplit : JsValue -> Completion.

Definition toCamelCase_fewShot (input : JsValue) : Completion :=
  if negb (toBoolean input) then Return []
  else
    match input with
    | JString s =>
        let parts := filter truthy (String_split s sepRe) in
        match parts with
        | [] => Return []
        | first :: rest =>
            let firstWord := toLowerCase first in
            let camelRest :=
              join [] (map (fun part => toUpperCase (firstn 1 part) ++ toLowerCase (skipn 1 part))
                         rest) in
            Return (firstWord ++ camelRest)
        end
    | _ =>
        match getSplit input with
        | JFunction _ => userSplit input
        | _ => Throw (TypeError "input.split is not a function")
        end
    end.

(** *** The kebab-case converter *)

Definition toKebabCase (input : JsValue) : Completion :=
  match input with
  | JString s => Return (toLowerCase (join (str "-") (String_split (trim s) spaceRe)))
  | _ => Throw (Error "Invalid input: expected a non-null string.")
  end.


(** *** The renderers and the kebab-case converter, in the words of the
    specification *)

(** LowerCamel: a token of digits only is emitted as it is, any other token
    with its first code unit in upper case and the others in lower case. *)
Definition camelToken_spec (p : jsstring) : jsstring :=
  if forallb isDigit p then p
  else toUpperCase (firstn 1 p) ++ toLowerCase (skipn 1 p).

Definition lowerCamel_spec (parts : list jsstring) : jsstring :=
  match parts with
  | [] => []
  | p0 :: ps => toLowerCase p0 ++ concat (map camelToken_spec ps)
  end.

(** DotCase: every token in lower case, one dot between two tokens. *)
Fixpoint dotCase_spec (parts : list jsstring) : jsstring :=
  match parts with
  | [] => []
  | [p] => toLowerCase p
  | p :: ps => toLowerCase p ++ ch "." :: dotCase_spec ps
  end.

(** KebabCase: trim, one hyphen for every maximal run of white space, all in
    lower case. *)
Definition kebabCase_spec (s : jsstring) : jsstring :=
  toLowerCase (collapseWhiteSpace false (trim s)).

(** *** Shapes of results *)

Definition isDot (c : codeunit) : bool := (c =? ch ".")%N.

(** A lower-case letter or a digit. *)
Definition isLowerOrDigit (c : codeunit) : bool := isLower c || isDigit c.

(** What becomes of a token after the first one in camel case. *)
Definition capToken (p : jsstring) : jsstring :=
  toUpperCase (firstn 1 p) ++ toLowerCase (skipn 1 p).

(** A code unit of the result of [toKebabCase] on an ASCII string: ASCII,
    no white space, no upper-case letter. *)
Definition isKebabUnit (c : codeunit) : bool :=
  isAscii c && negb (isWhiteSpace c) && negb (isUpper c).

(** The camel case of a list of tokens: the first in lower case, the
    others capitalised, nothing between them. *)
Definition camelOfTokens (parts : list jsstring) : jsstring :=
  match parts with
  | [] => []
  | p0 :: ps => toLowerCase p0 ++ concat (map capToken ps)
  end.

(** ** Character classes *)

Ltac classes :=
  unfold isSeparator, isAlnum, isUpper, isLower, isDigit, isAscii, asciiLower, asciiUpper,
    isUpper, isLower, inRange, ch in *;
  simpl N_of_ascii in *;
  repeat match goal with
    | |- context [(?a <=? ?b)%N] => destruct (N.leb_spec a b)
    | |- context [(?a <? ?b)%N] => destruct (N.ltb_spec a b)
    | H : context [(?a <=? ?b)%N] |- _ => destruct (N.leb_spec a b)
    | H : context [(?a <? ?b)%N] |- _ => destruct (N.ltb_spec a b)
    end;
  simpl in *; try congruence; try lia.

Lemma upper_not_lower c : isUpper c = true -> isLower c = false.
Proof. classes. Qed.

Lemma upper_not_digit c : isUpper c = true -> isDigit c = false.
Proof. classes. Qed.

Lemma lower_not_upper c : isLower c = true -> isUpper c = false.
Proof. classes. Qed.

Lemma upper_alnum c : isUpper c = true -> isAlnum c = true.
Proof. unfold isAlnum. intros ->. reflexivity. Qed.

Lemma lower_alnum c : isLower c = true -> isAlnum c = true.
Proof. unfold isAlnum. intros ->. now rewrite orb_true_r. Qed.

Lemma alnum_ascii c : isAlnum c = true -> isAscii c = true.
Proof. classes. Qed.

Lemma asciiLower_alnum c : isAlnum c = true -> isAlnum (asciiLower c) = true.
Proof. classes. Qed.

Lemma asciiUpper_alnum c : isAlnum c = true -> isAlnum (asciiUpper c) = true.
Proof. classes. Qed.

Lemma inSet_upper c : inSet false [(ch "A", ch "Z")] c = isUpper c.
Proof. unfold inSet, isUpper. simpl. now rewrite orb_false_r. Qed.

Lemma inSet_lower c : inSet false [(ch "a", ch "z")] c = isLower c.
Proof. unfold inSet, isLower. simpl. now rewrite orb_false_r. Qed.

Lemma inSet_digit c : inSet false [(ch "0", ch "9")] c = isDigit c.
Proof. unfold inSet, isDigit. simpl. now rewrite orb_false_r. Qed.

Lemma inSet_separator c :
  inSet true [(ch "A", ch "Z"); (ch "a", ch "z"); (ch "0", ch "9")] c = isSeparator c.
Proof.
  unfold inSet, isSeparator, isAlnum, isUpper, isLower, isDigit. simpl.
  now rewrite orb_false_r, orb_assoc.
Qed.


(** ** The matcher on character classes *)

Lemma takeWhile_dropWhile p s : takeWhile p s ++ dropWhile p s = s.
Proof. induction s as [|a t IH]; simpl; [|destruct (p a); simpl; rewrite ?IH]; reflexivity. Qed.

Lemma takeWhile_all p s : forallb p (takeWhile p s) = true.
Proof.
  induction s as [|a t IH]; simpl; [reflexivity|].
  destruct (p a) eqn:E; simpl; [now rewrite E|reflexivity].
Qed.

Lemma dropWhile_start p s : startsWith p (dropWhile p s) = false.
Proof.
  induction s as [|a t IH]; simpl; [reflexivity|].
  destruct (p a) eqn:E; simpl; assumption.
Qed.

Lemma dropWhile_length p s : length (dropWhile p s) <= length s.
Proof. induction s as [|a t IH]; simpl; [|destruct (p a); simpl]; lia. Qed.

Lemma takeWhile_none p s : startsWith p s = false -> takeWhile p s = [].
Proof. destruct s as [|a t]; simpl; [|intros ->]; reflexivity. Qed.

Lemma dropWhile_none p s : startsWith p s = false -> dropWhile p s = s.
Proof. destruct s as [|a t]; simpl; [|intros ->]; reflexivity. Qed.

Lemma takeWhile_app p s t :
  forallb p s = true -> takeWhile p (s ++ t) = s ++ takeWhile p t.
Proof.
  induction s as [|a s IH]; simpl; [reflexivity|].
  intros [Ha Hs]%andb_true_iff. now rewrite Ha, IH.
Qed.

Lemma dropWhile_app p s t :
  forallb p s = true -> dropWhile p (s ++ t) = dropWhile p t.
Proof.
  induction s as [|a s IH]; simpl; [reflexivity|].
  intros [Ha Hs]%andb_true_iff. now rewrite Ha, IH.
Qed.

Lemma greedyRun_ext p q i s c :
  (forall a, p a = q a) -> greedyRun p i s c = greedyRun q i s c.
Proof.
  intros E. revert i. induction s as [|a t IH]; intros i; simpl; [reflexivity|].
  now rewrite E, IH.
Qed.

Lemma repeat_charMatcher p c fuel :
  forall i s, length s <= fuel ->
    repeatMatcher (charMatcher p) fuel (mkState i s) c = greedyRun p i s c.
Proof.
  induction fuel as [|fuel IH]; intros i s Hlen.
  - destruct s; [reflexivity | simpl in Hlen; lia].
  - destruct s as [|a t]; [reflexivity|].
    cbn [repeatMatcher greedyRun]. unfold charMatcher at 1. cbn [remaining endIndex].
    destruct (p a); [|reflexivity].
    replace (S i =? i) with false by (symmetry; apply Nat.eqb_neq; lia).
    rewrite IH by (simpl in Hlen; lia). reflexivity.
Qed.

Lemma compile_plus_set negated ranges p i s c :
  (forall a, inSet negated ranges a = p a) ->
  compile (RPlus (RSet negated ranges)) (mkState i s) c = plusRun p i s c.
Proof.
  intros E. simpl. unfold charMatcher at 1, plusRun. simpl.
  destruct s as [|a t]; [reflexivity|].
  rewrite E. destruct (p a); [|reflexivity].
  simpl. rewrite repeat_charMatcher by reflexivity.
  now apply greedyRun_ext.
Qed.

Lemma compile_plus_space i s c :
  compile (RPlus RSpace) (mkState i s) c = plusRun isWhiteSpace i s c.
Proof.
  simpl. unfold charMatcher at 1, plusRun. simpl.
  destruct s as [|a t]; [reflexivity|].
  destruct (isWhiteSpace a); [|reflexivity].
  simpl. now rewrite repeat_charMatcher by reflexivity.
Qed.

Lemma greedyRun_Some p i s :
  greedyRun p i s Some = Some (mkState (i + length (takeWhile p s)) (dropWhile p s)).
Proof.
  revert i. induction s as [|a t IH]; intros i; simpl.
  - now rewrite Nat.add_0_r.
  - destruct (p a); simpl.
    + rewrite IH. do 2 f_equal. lia.
    + now rewrite Nat.add_0_r.
Qed.

Lemma plusRun_Some p i s :
  plusRun p i s Some =
    if startsWith p s
    then Some (mkState (i + length (takeWhile p s)) (dropWhile p s))
    else None.
Proof.
  destruct s as [|a t]; simpl; [reflexivity|].
  destruct (p a); [|reflexivity].
  rewrite greedyRun_Some. do 2 f_equal. simpl. lia.
Qed.


(** ** [test], [split] and [match] on the patterns of the sources *)

Lemma sepRe_runs : runs (compile sepRe) isSeparator.
Proof. intros i s. apply compile_plus_set, inSet_separator. Qed.

Lemma spaceRe_runs : runs (compile spaceRe) isWhiteSpace.
Proof. intros i s. apply compile_plus_space. Qed.

Lemma search_runs m p :
  runs m p ->
  forall s i, match search m i s with Some _ => true | None => false end = existsb p s.
Proof.
  intros Hm. induction s as [|a t IH]; intros i; simpl; rewrite Hm, plusRun_Some; simpl.
  - reflexivity.
  - destruct (p a); simpl; [reflexivity | apply IH].
Qed.

Lemma test_sepRe s : test sepRe s = existsb isSeparator s.
Proof.
  unfold test. apply (search_runs sepRe_runs).
Qed.

Lemma fields_skip p s : fields p true [] s = fields p false [] (dropWhile p s).
Proof.
  induction s as [|a t IH]; simpl; [reflexivity|].
  destruct (p a) eqn:E; simpl; [assumption | now rewrite E].
Qed.

Lemma splitLoop_fields m p :
  runs m p ->
  forall fuel p0 piece q s,
    2 * length s < fuel -> p0 <= q ->
    splitLoop m fuel p0 piece q s = fields p false piece s.
Proof.
  intros Hm. induction fuel as [|fuel IH]; intros p0 piece q s Hfuel Hpq; [lia|].
  destruct s as [|a t]; [reflexivity|].
  cbn [splitLoop fields]. rewrite Hm, plusRun_Some. cbn [startsWith].
  destruct (p a) eqn:Ea.
  - cbn [endIndex remaining].
    replace (q + length (takeWhile p (a :: t)) =? p0) with false.
    + rewrite fields_skip. f_equal.
      replace (dropWhile p (a :: t)) with (dropWhile p t) by (simpl; now rewrite Ea).
      apply IH; [|lia].
      pose proof (dropWhile_length p t). simpl in Hfuel. lia.
    + symmetry. apply Nat.eqb_neq. simpl. rewrite Ea. simpl. lia.
  - apply IH; [simpl in Hfuel; lia | lia].
Qed.

Lemma split_fields r p s :
  runs (compile r) p -> String_split s r = fields p false [] s.
Proof.
  intros Hm. destruct s as [|a t].
  - unfold String_split. now rewrite Hm.
  - unfold String_split. apply splitLoop_fields; [assumption | lia | lia].
Qed.

Lemma filter_fields p :
  forall s inSep piece,
    (inSep = true -> piece = []) ->
    filter truthy (fields p inSep piece s) = words p piece s.
Proof.
  induction s as [|a t IH]; intros inSep piece Hp; simpl.
  - destruct (truthy piece); reflexivity.
  - destruct (p a).
    + destruct inSep.
      * rewrite (Hp eq_refl). simpl. now apply IH.
      * simpl. destruct (truthy piece); rewrite (IH true []); auto.
    + apply IH. discriminate.
Qed.

(** [s.split(/[^A-Za-z0-9]+/).filter(Boolean)]: the maximal runs of letters
    and digits. *)
Lemma split_sepRe s :
  filter truthy (String_split s sepRe) = words isSeparator [] s.
Proof.
  rewrite split_fields with (p := isSeparator) by apply sepRe_runs.
  apply filter_fields. reflexivity.
Qed.

Lemma words_spec p :
  forall s piece,
    forallb (fun a => negb (p a)) piece = true ->
    Forall (fun w => truthy w = true /\ forallb (fun a => negb (p a)) w = true)
      (words p piece s).
Proof.
  induction s as [|a t IH]; intros piece Hpiece; simpl.
  - destruct (truthy piece) eqn:E; auto.
  - destruct (p a) eqn:Ea.
    + destruct (truthy piece) eqn:E; auto.
    + apply IH. rewrite forallb_app, Hpiece. simpl. now rewrite Ea.
Qed.

Lemma words_alnum s :
  Forall (fun w => truthy w = true /\ forallb isAlnum w = true) (words isSeparator [] s).
Proof.
  eapply Forall_impl; [|apply (words_spec isSeparator s []); reflexivity].
  intros w [Hw Ha]. split; [assumption|].
  rewrite forallb_forall in Ha |- *. intros a Hin.
  specialize (Ha a Hin). unfold isSeparator in Ha.
  now rewrite negb_involutive in Ha.
Qed.

(** [/^[0-9]+$/.test(p)]: [p] is not empty and holds digits only. *)
Lemma greedyRun_eol p i s :
  greedyRun p i s (fun y => compile REol y Some) =
    if forallb p s then Some (mkState (i + length s) []) else None.
Proof.
  revert i. induction s as [|a t IH]; intros i; simpl.
  - now rewrite Nat.add_0_r.
  - destruct (p a); simpl; [|reflexivity].
    rewrite IH. destruct (forallb p t); [|reflexivity].
    do 2 f_equal. lia.
Qed.

Lemma search_digitsRe_later s :
  forall i, 0 < i -> search (compile digitsRe) i s = None.
Proof.
  induction s as [|a t IH]; intros i Hi.
  - simpl. destruct i; [lia | reflexivity].
  - cbn [search]. rewrite IH by lia.
    simpl. destruct i; [lia | reflexivity].
Qed.

Lemma test_digitsRe s : test digitsRe s = truthy s && forallb isDigit s.
Proof.
  unfold test. destruct s as [|a t]; [reflexivity|].
  cbn [search]. rewrite search_digitsRe_later by lia.
  change (compile digitsRe (mkState 0 (a :: t)) Some)
    with (compile (RPlus digitSet) (mkState 0 (a :: t)) (fun y => compile REol y Some)).
  unfold digitSet. rewrite (compile_plus_set _ _ isDigit) by apply inSet_digit.
  simpl. destruct (isDigit a); [|reflexivity].
  rewrite greedyRun_eol. destruct (forallb isDigit t); reflexivity.
Qed.


(** ** The boundary scan: one match of [tokenRe] *)

Lemma last_cons (u d : codeunit) l : last (u :: l) d = last l u.
Proof.
  revert u d. induction l as [|v l IH]; intros u d; [reflexivity|].
  change (last (u :: v :: l) d) with (last (v :: l) d).
  now rewrite !IH.
Qed.

Lemma removelast_cons_length (u : codeunit) l :
  length (removelast (u :: l)) = length l.
Proof.
  revert u. induction l as [|v l IH]; intros u; [reflexivity|].
  change (removelast (u :: v :: l)) with (u :: removelast (v :: l)).
  cbn [length]. f_equal. apply IH.
Qed.

Lemma lookUpperLower_spec i s :
  lookUpperLower (mkState i s) =
    match s with
    | a :: b :: _ => if isUpper a && isLower b then Some (mkState i s) else None
    | _ => None
    end.
Proof.
  unfold lookUpperLower, upperSet, lowerSet. cbn [compile].
  unfold charMatcher. cbn [remaining endIndex].
  destruct s as [|a [|b t]]; rewrite ?inSet_upper, ?inSet_lower.
  - reflexivity.
  - destruct (isUpper a); reflexivity.
  - destruct (isUpper a), (isLower b); reflexivity.
Qed.

(** The longest run of upper-case letters fails the look-ahead, and so does
    every run that stops two or more letters before the end: the match is
    the run without its last letter, when a lower-case letter follows. *)
Lemma greedyRun_acronym :
  forall s i,
    greedyRun isUpper i s lookUpperLower =
      match takeWhile isUpper s with
      | [] => None
      | u :: run =>
          if startsWith isLower (dropWhile isUpper s)
          then Some (mkState (i + length run) (last run u :: dropWhile isUpper s))
          else None
      end.
Proof.
  induction s as [|a t IH]; intros i.
  - reflexivity.
  - cbn [greedyRun takeWhile dropWhile]. destruct (isUpper a) eqn:Ea.
    + rewrite IH, lookUpperLower_spec. rewrite Ea.
      destruct t as [|b t']; [reflexivity|].
      cbn [takeWhile dropWhile]. destruct (isUpper b) eqn:Eb.
      * destruct (startsWith isLower (dropWhile isUpper t')).
        -- rewrite (last_cons b a). do 2 f_equal. simpl. lia.
        -- now rewrite (upper_not_lower _ Eb).
      * simpl. destruct (isLower b); [|reflexivity].
        now rewrite Nat.add_0_r.
    + rewrite lookUpperLower_spec. rewrite Ea. destruct t; reflexivity.
Qed.

Lemma compile_acronym i s :
  compile (RGroup (RSeq (RPlus upperSet) (RLook (RSeq upperSet lowerSet)))) (mkState i s) Some =
    plusRun isUpper i s lookUpperLower.
Proof.
  change (compile (RPlus upperSet) (mkState i s) lookUpperLower = plusRun isUpper i s lookUpperLower).
  apply compile_plus_set, inSet_upper.
Qed.

Lemma compile_word i s :
  compile (RGroup (RSeq (ROpt upperSet) (RPlus lowerSet))) (mkState i s) Some =
    match s with
    | a :: t =>
        if isUpper a then plusRun isLower (S i) t Some
        else plusRun isLower i s Some
    | [] => None
    end.
Proof.
  pose (k := fun y : MatchState => compile (RPlus lowerSet) y Some).
  change (match charMatcher (inSet false [(ch "A", ch "Z")]) (mkState i s)
                  (fun y => if endIndex y =? i then None else k y) with
          | Some z => Some z
          | None => k (mkState i s)
          end = match s with
                | a :: t =>
                    if isUpper a then plusRun isLower (S i) t Some
                    else plusRun isLower i s Some
                | [] => None
                end).
  assert (forall j u, k (mkState j u) = plusRun isLower j u Some) as Hk
    by (intros j u; apply compile_plus_set, inSet_lower).
  clearbody k. unfold charMatcher. cbn [remaining endIndex].
  destruct s as [|a t].
  - now rewrite Hk.
  - rewrite inSet_upper, !Hk. destruct (isUpper a) eqn:Ea; [|reflexivity].
    replace (S i =? i) with false by (symmetry; apply Nat.eqb_neq; lia).
    destruct (plusRun isLower (S i) t Some) eqn:E; [reflexivity|].
    simpl. now rewrite (upper_not_lower _ Ea).
Qed.

Lemma compile_tokenRe_unfold x :
  compile tokenRe x Some =
    match compile (RGroup (RSeq (RPlus upperSet) (RLook (RSeq upperSet lowerSet)))) x Some with
    | Some z => Some z
    | None =>
        match compile (RGroup (RSeq (ROpt upperSet) (RPlus lowerSet))) x Some with
        | Some z => Some z
        | None =>
            match compile (RPlus upperSet) x Some with
            | Some z => Some z
            | None => compile (RPlus digitSet) x Some
            end
        end
    end.
Proof. reflexivity. Qed.

(** One match of [tokenRe] at a given index is the first token of the
    boundary scan. *)
Lemma compile_tokenRe i s :
  compile tokenRe (mkState i s) Some =
    match nextToken s with
    | Some (tok, rest) => Some (mkState (i + length tok) rest)
    | None => None
    end.
Proof.
  rewrite compile_tokenRe_unfold, compile_acronym, compile_word.
  unfold upperSet, digitSet.
  rewrite (compile_plus_set _ _ isUpper) by apply inSet_upper.
  rewrite (compile_plus_set _ _ isDigit) by apply inSet_digit.
  rewrite !plusRun_Some.
  destruct s as [|a t]; [reflexivity|].
  unfold nextToken, plusRun at 1. cbn [startsWith].
  destruct (isUpper a) eqn:Ea.
  - rewrite greedyRun_acronym, plusRun_Some.
    cbn [takeWhile dropWhile]. rewrite Ea.
    destruct t as [|b t'].
    + reflexivity.
    + cbn [takeWhile dropWhile startsWith]. destruct (isUpper b) eqn:Eb.
      * rewrite (upper_not_lower _ Eb).
        destruct (startsWith isLower (dropWhile isUpper t')) eqn:El.
        -- rewrite !last_cons. do 2 f_equal.
           change (removelast (a :: b :: takeWhile isUpper t'))
             with (a :: removelast (b :: takeWhile isUpper t')).
           cbn [length]. rewrite removelast_cons_length. lia.
        -- cbn [length]. do 2 f_equal.
      * destruct (isLower b) eqn:Elb.
        -- cbn [startsWith]. rewrite Elb. cbn [length]. do 2 f_equal. lia.
        -- cbn [startsWith]. rewrite Elb. reflexivity.
  - destruct (isLower a) eqn:El.
    + reflexivity.
    + destruct (isDigit a) eqn:Ed; reflexivity.
Qed.


(** ** The boundary scan: all matches of [tokenRe] *)

Lemma takeWhile_nonempty p s : startsWith p s = true -> takeWhile p s <> [].
Proof. destruct s as [|a t]; simpl; [discriminate | intros ->; discriminate]. Qed.

Lemma nextToken_app s tok rest :
  nextToken s = Some (tok, rest) -> tok ++ rest = s /\ tok <> [].
Proof.
  destruct s as [|a t]; [discriminate|].
  unfold nextToken.
  pose proof (takeWhile_dropWhile isUpper (a :: t)) as Hu.
  pose proof (takeWhile_dropWhile isLower (a :: t)) as Hl.
  pose proof (takeWhile_dropWhile isDigit (a :: t)) as Hd.
  pose proof (@takeWhile_nonempty isUpper (a :: t)) as Nu.
  pose proof (@takeWhile_nonempty isLower (a :: t)) as Nl.
  pose proof (@takeWhile_nonempty isDigit (a :: t)) as Nd.
  cbn [startsWith] in Nu, Nl, Nd.
  destruct (isUpper a) eqn:Ea.
  - specialize (Nu eq_refl).
    remember (takeWhile isUpper (a :: t)) as run.
    remember (dropWhile isUpper (a :: t)) as after.
    destruct (startsWith isLower after) eqn:El; [|intros [= <- <-]; auto].
    destruct t as [|b t']; [intros [= <- <-]; auto|].
    destruct (isUpper b) eqn:Eb.
    + intros [= <- <-]. split.
      * change (last run a :: after) with ([last run a] ++ after).
        now rewrite app_assoc, <- app_removelast_last.
      * subst run. simpl. rewrite Ea, Eb. discriminate.
    + intros [= <- <-]. split; [|discriminate].
      simpl. f_equal.
      destruct (isLower b); simpl; [f_equal; apply takeWhile_dropWhile | reflexivity].
  - destruct (isLower a) eqn:El; [intros [= <- <-]; auto|].
    destruct (isDigit a) eqn:Ed; [intros [= <- <-]; auto | discriminate].
Qed.

Lemma nextToken_alnum a t :
  isAlnum a = true -> exists tok rest, nextToken (a :: t) = Some (tok, rest).
Proof.
  intros Ha. unfold nextToken.
  destruct (isUpper a) eqn:Eu.
  - destruct (startsWith isLower (dropWhile isUpper (a :: t))); [|eauto].
    destruct t as [|b t']; [eauto|]. destruct (isUpper b); eauto.
  - destruct (isLower a) eqn:El; [eauto|].
    destruct (isDigit a) eqn:Ed; [eauto|].
    unfold isAlnum in Ha. rewrite Eu, El, Ed in Ha. discriminate.
Qed.

Lemma nextToken_shorter s tok rest :
  nextToken s = Some (tok, rest) -> length rest < length s.
Proof.
  intros [<- Hne]%nextToken_app. rewrite length_app.
  destruct tok; [congruence | simpl; lia].
Qed.

Lemma scan_fuel :
  forall f1 f2 s, length s <= f1 -> length s <= f2 -> scan f1 s = scan f2 s.
Proof.
  induction f1 as [|f1 IH]; intros f2 s H1 H2.
  - destruct s; [|simpl in H1; lia]. destruct f2; reflexivity.
  - destruct f2 as [|f2].
    + destruct s; [reflexivity | simpl in H2; lia].
    + simpl. destruct (nextToken s) as [[tok rest]|] eqn:E; [|reflexivity].
      apply nextToken_shorter in E. f_equal. apply IH; lia.
Qed.

Lemma boundaryTokens_step s tok rest :
  nextToken s = Some (tok, rest) -> boundaryTokens s = tok :: boundaryTokens rest.
Proof.
  intros E. unfold boundaryTokens.
  pose proof (nextToken_shorter _ E) as Hlen.
  destruct s as [|a t]; [discriminate|].
  cbn [length scan]. rewrite E. f_equal.
  apply scan_fuel; simpl in Hlen; lia.
Qed.

Lemma matchLoop_scan :
  forall fuel i s,
    forallb isAlnum s = true ->
    matchLoop (compile tokenRe) fuel i s = scan fuel s.
Proof.
  induction fuel as [|fuel IH]; intros i s Hs; [reflexivity|].
  cbn [matchLoop scan].
  destruct s as [|a t].
  - reflexivity.
  - cbn [search]. rewrite compile_tokenRe.
    simpl in Hs. apply andb_true_iff in Hs as [Ha Ht].
    destruct (@nextToken_alnum a t Ha) as (tok & rest & E). rewrite E.
    destruct (nextToken_app _ E) as [Happ Hne].
    cbn [endIndex remaining].
    replace (i + length tok - i) with (length tok) by lia.
    replace (i + length tok =? i) with false
      by (symmetry; apply Nat.eqb_neq; destruct tok; [congruence | simpl; lia]).
    rewrite <- Happ at 1. rewrite firstn_app, firstn_all, Nat.sub_diag. simpl.
    rewrite app_nil_r. f_equal. apply IH.
    assert (forallb isAlnum (tok ++ rest) = true) as Hall
      by (rewrite Happ; simpl; now rewrite Ha, Ht).
    rewrite forallb_app in Hall. now apply andb_true_iff in Hall as [_ ?].
Qed.

Lemma existsb_separator s :
  existsb isSeparator s = negb (forallb isAlnum s).
Proof.
  induction s as [|a t IH]; simpl; [reflexivity|].
  rewrite IH. unfold isSeparator. now rewrite negb_andb.
Qed.


(** ** The tokenizer *)

Lemma tokenize_separators s :
  existsb isSeparator s = true -> tokenize s = words isSeparator [] s.
Proof.
  intros H. unfold tokenize. rewrite test_sepRe, H. apply split_sepRe.
Qed.

Lemma tokenize_alnum s :
  s <> [] -> forallb isAlnum s = true -> tokenize s = boundaryTokens s.
Proof.
  intros Hne Hs. unfold tokenize.
  rewrite test_sepRe, existsb_separator, Hs. cbn [negb].
  unfold String_match. rewrite matchLoop_scan by assumption.
  rewrite (@scan_fuel (S (length s)) (length s) s) by lia.
  fold (boundaryTokens s).
  destruct s as [|a t]; [congruence|].
  simpl in Hs. apply andb_true_iff in Hs as [Ha _].
  destruct (@nextToken_alnum a t Ha) as (tok & rest & E).
  now rewrite (boundaryTokens_step _ E).
Qed.

Lemma scan_tokens :
  forall fuel s,
    forallb isAlnum s = true -> length s <= fuel ->
    Forall token (scan fuel s) /\ concat (scan fuel s) = s.
Proof.
  induction fuel as [|fuel IH]; intros s Hs Hlen.
  - destruct s; [split; [constructor | reflexivity] | simpl in Hlen; lia].
  - destruct s as [|a t]; [split; [constructor | reflexivity]|].
    cbn [scan].
    pose proof Hs as Hs'. simpl in Hs'. apply andb_true_iff in Hs' as [Ha _].
    destruct (@nextToken_alnum a t Ha) as (tok & rest & E). rewrite E.
    destruct (nextToken_app _ E) as [Happ Hne].
    pose proof (nextToken_shorter _ E) as Hshort.
    rewrite <- Happ, forallb_app in Hs. apply andb_true_iff in Hs as [Htok Hrest].
    destruct (IH rest Hrest) as [IH1 IH2]; [simpl in Hshort, Hlen; lia|].
    split.
    + constructor; [|assumption].
      split; [destruct tok; [congruence | reflexivity] | assumption].
    + cbn [concat]. now rewrite IH2.
Qed.

(** The boundary scan cuts a string of letters and digits into tokens, in
    order, leaving nothing out. *)
Lemma boundaryTokens_partition s :
  forallb isAlnum s = true ->
  Forall token (boundaryTokens s) /\ concat (boundaryTokens s) = s.
Proof. intros Hs. now apply scan_tokens. Qed.

Lemma words_tokens s : Forall token (words isSeparator [] s).
Proof. apply words_alnum. Qed.

Lemma tokenize_tokens s : s <> [] -> Forall token (tokenize s).
Proof.
  intros Hne. destruct (forallb isAlnum s) eqn:Hs.
  - rewrite tokenize_alnum by assumption. now apply boundaryTokens_partition.
  - rewrite tokenize_separators by (now rewrite existsb_separator, Hs).
    apply words_tokens.
Qed.


(** ** [trim] *)

Lemma trimStart_dropWhile s : trimStart s = dropWhile isWhiteSpace s.
Proof.
  induction s as [|a t IH]; simpl; [reflexivity|].
  destruct (isWhiteSpace a); [assumption | reflexivity].
Qed.

Lemma forallb_rev (p : codeunit -> bool) s : forallb p (rev s) = forallb p s.
Proof.
  induction s as [|a t IH]; simpl; [reflexivity|].
  rewrite forallb_app, IH. simpl. rewrite andb_true_r. apply andb_comm.
Qed.

Lemma dropWhile_all p s : forallb p s = true -> dropWhile p s = [].
Proof.
  induction s as [|a t IH]; simpl; [reflexivity|].
  intros [Ha Ht]%andb_true_iff. rewrite Ha. auto.
Qed.

Lemma startsWith_app p s t : s <> [] -> startsWith p (s ++ t) = startsWith p s.
Proof. destruct s; [congruence | reflexivity]. Qed.

Lemma endsWith_app p s t : t <> [] -> endsWith p (s ++ t) = endsWith p t.
Proof.
  intros Ht. unfold endsWith. rewrite rev_app_distr. apply startsWith_app.
  intros E. apply (f_equal (@rev codeunit)) in E. rewrite rev_involutive in E.
  now apply Ht.
Qed.

Lemma endsWith_all p s : s <> [] -> forallb p s = true -> endsWith p s = true.
Proof.
  intros Hne Hs. unfold endsWith. rewrite <- forallb_rev in Hs.
  destruct (rev s) as [|a t] eqn:E.
  - apply (f_equal (@rev codeunit)) in E. rewrite rev_involutive in E. now subst.
  - simpl in Hs. now apply andb_true_iff in Hs as [Ha _].
Qed.

(** [trim] takes a run of white space off each end, and all of it. *)
Lemma trim_spec s :
  exists lead trail,
    s = lead ++ trim s ++ trail
    /\ forallb isWhiteSpace lead = true
    /\ forallb isWhiteSpace trail = true
    /\ startsWith isWhiteSpace (trim s) = false
    /\ endsWith isWhiteSpace (trim s) = false.
Proof.
  unfold trim, trimEnd. rewrite !trimStart_dropWhile.
  set (u := dropWhile isWhiteSpace s).
  exists (takeWhile isWhiteSpace s), (rev (takeWhile isWhiteSpace (rev u))).
  assert (u = rev (dropWhile isWhiteSpace (rev u)) ++ rev (takeWhile isWhiteSpace (rev u))) as Hu.
  { rewrite <- rev_app_distr, takeWhile_dropWhile. now rewrite rev_involutive. }
  repeat split.
  - rewrite <- Hu. symmetry. apply takeWhile_dropWhile.
  - apply takeWhile_all.
  - rewrite forallb_rev. apply takeWhile_all.
  - destruct (rev (dropWhile isWhiteSpace (rev u))) as [|a t] eqn:E; [reflexivity|].
    pose proof (dropWhile_start isWhiteSpace s) as Hs. fold u in Hs.
    rewrite Hu in Hs. exact Hs.
  - unfold endsWith. rewrite rev_involutive. apply dropWhile_start.
Qed.

Lemma trim_whitespace s : forallb isWhiteSpace s = true -> trim s = [].
Proof.
  intros Hs. unfold trim. rewrite trimStart_dropWhile, dropWhile_all by assumption.
  reflexivity.
Qed.

(** ** Rendering *)

Lemma forallb_alnum_ascii s : forallb isAlnum s = true -> forallb isAscii s = true.
Proof.
  rewrite !forallb_forall. intros H a Ha. apply alnum_ascii. auto.
Qed.

Lemma toLowerCase_alnum s :
  forallb isAlnum s = true -> toLowerCase s = map asciiLower s.
Proof. intros H. unfold toLowerCase. now rewrite forallb_alnum_ascii. Qed.

Lemma toUpperCase_alnum s :
  forallb isAlnum s = true -> toUpperCase s = map asciiUpper s.
Proof. intros H. unfold toUpperCase. now rewrite forallb_alnum_ascii. Qed.

Lemma lower_keeps_alnum s :
  forallb isAlnum s = true -> forallb isAlnum (toLowerCase s) = true.
Proof.
  intros H. rewrite toLowerCase_alnum by assumption.
  rewrite forallb_forall in *. intros a [b [<- Hb]]%in_map_iff.
  apply asciiLower_alnum. auto.
Qed.

Lemma upper_keeps_alnum s :
  forallb isAlnum s = true -> forallb isAlnum (toUpperCase s) = true.
Proof.
  intros H. rewrite toUpperCase_alnum by assumption.
  rewrite forallb_forall in *. intros a [b [<- Hb]]%in_map_iff.
  apply asciiUpper_alnum. auto.
Qed.

Lemma capitalize_keeps_alnum s :
  forallb isAlnum s = true -> forallb isAlnum (capitalize s) = true.
Proof.
  destruct s as [|a t]; [reflexivity|]. simpl forallb.
  intros [Ha Ht]%andb_true_iff. unfold capitalize.
  rewrite forallb_app, upper_keeps_alnum, lower_keeps_alnum; auto.
  simpl. now rewrite Ha.
Qed.

Lemma join_cons sep p l : l <> [] -> join sep (p :: l) = p ++ sep ++ join sep l.
Proof. destruct l; [congruence | reflexivity]. Qed.

Lemma join_nil_concat l : join [] l = concat l.
Proof.
  induction l as [|p l IH]; [reflexivity|].
  destruct l as [|q l]; [simpl; now rewrite app_nil_r|].
  rewrite join_cons by discriminate. rewrite IH. reflexivity.
Qed.

Lemma join_forallb (P : codeunit -> bool) sep l :
  forallb P sep = true -> Forall (fun w => forallb P w = true) l ->
  forallb P (join sep l) = true.
Proof.
  intros Hsep. induction 1 as [|p l Hp Hl IH]; [reflexivity|].
  destruct l as [|q l]; [exact Hp|].
  rewrite join_cons by discriminate.
  now rewrite !forallb_app, Hp, Hsep, IH.
Qed.

Lemma fields_nonempty p s : forall inSep piece, fields p inSep piece s <> [].
Proof.
  induction s as [|a t IH]; intros inSep piece; simpl; [discriminate|].
  destruct (p a); [destruct inSep; [apply IH | discriminate] | apply IH].
Qed.

(** Joining the pieces of [split(/\s+/)] with a hyphen puts one hyphen in
    the place of every maximal run of white space. *)
Lemma join_fields_space :
  forall s inSep piece,
    (inSep = true -> piece = []) ->
    join [ch "-"] (fields isWhiteSpace inSep piece s) = piece ++ collapseWhiteSpace inSep s.
Proof.
  induction s as [|a t IH]; intros inSep piece Hp; simpl.
  - now rewrite app_nil_r.
  - destruct (isWhiteSpace a).
    + destruct inSep.
      * rewrite (Hp eq_refl). now apply IH.
      * rewrite join_cons by apply fields_nonempty.
        rewrite IH by reflexivity. reflexivity.
    + rewrite IH by discriminate. now rewrite <- app_assoc.
Qed.


(** ** The boundary scan after a prefix *)

Lemma span_app_stop p pre s :
  dropWhile p pre <> [] \/ startsWith p s = false ->
  takeWhile p (pre ++ s) = takeWhile p pre
  /\ dropWhile p (pre ++ s) = dropWhile p pre ++ s.
Proof.
  induction pre as [|a t IH]; intros H.
  - destruct H as [H|H]; [now elim H|].
    simpl. now rewrite takeWhile_none, dropWhile_none.
  - simpl in *. destruct (p a); [|split; reflexivity].
    destruct (IH H) as [-> ->]. split; reflexivity.
Qed.

Lemma upper_run_stops pre :
  pre <> [] -> endsWith isUpper pre = false -> dropWhile isUpper pre <> [].
Proof.
  intros Hne Hend E.
  assert (forallb isUpper pre = true) as Hall.
  { rewrite <- (takeWhile_dropWhile isUpper pre), E, app_nil_r. apply takeWhile_all. }
  rewrite endsWith_all in Hend by assumption. discriminate.
Qed.

Lemma starts_upper_not_lower s : startsWith isUpper s = true -> startsWith isLower s = false.
Proof. destruct s; [reflexivity | apply upper_not_lower]. Qed.

Lemma starts_upper_not_digit s : startsWith isUpper s = true -> startsWith isDigit s = false.
Proof. destruct s; [reflexivity | apply upper_not_digit]. Qed.

(** The first token of a prefix that does not end in an upper-case letter
    is not changed by what follows, when that starts with an upper-case
    letter. *)
Lemma nextToken_prefix pre s tok rest :
  endsWith isUpper pre = false ->
  startsWith isUpper s = true ->
  nextToken pre = Some (tok, rest) ->
  nextToken (pre ++ s) = Some (tok, rest ++ s).
Proof.
  intros Hend Hs.
  destruct pre as [|a t]; [discriminate|].
  assert (dropWhile isUpper (a :: t) <> []) as Hstop by (now apply upper_run_stops).
  destruct (@span_app_stop isUpper (a :: t) s (or_introl Hstop)) as [Htu Hdu].
  destruct (@span_app_stop isLower (a :: t) s (or_intror (starts_upper_not_lower _ Hs)))
    as [Htl Hdl].
  destruct (@span_app_stop isDigit (a :: t) s (or_intror (starts_upper_not_digit _ Hs)))
    as [Htd Hdd].
  destruct (@span_app_stop isLower t s (or_intror (starts_upper_not_lower _ Hs)))
    as [Htl' Hdl'].
  unfold nextToken. change ((a :: t) ++ s) with (a :: (t ++ s)) in *.
  rewrite Htu, Hdu, Htl, Hdl, Htd, Hdd, Htl', Hdl'.
  rewrite (startsWith_app _ _ Hstop).
  destruct (isUpper a) eqn:Ea.
  - destruct (startsWith isLower (dropWhile isUpper (a :: t))) eqn:El.
    + destruct t as [|b t'].
      * exfalso. apply Hstop. simpl. now rewrite Ea.
      * change ((b :: t') ++ s) with (b :: (t' ++ s)).
        destruct (isUpper b) eqn:Eb; intros [= <- <-];
          simpl; rewrite ?Ea, ?Eb; reflexivity.
    + now intros [= <- <-].
  - destruct (isLower a); [now intros [= <- <-]|].
    destruct (isDigit a); [now intros [= <- <-] | discriminate].
Qed.

Lemma boundaryTokens_prefix :
  forall n pre s,
    length pre <= n ->
    forallb isAlnum pre = true ->
    endsWith isUpper pre = false ->
    startsWith isUpper s = true ->
    boundaryTokens (pre ++ s) = boundaryTokens pre ++ boundaryTokens s.
Proof.
  induction n as [|n IH]; intros pre s Hlen Hpre Hend Hs.
  - destruct pre; [reflexivity | simpl in Hlen; lia].
  - destruct pre as [|a t]; [reflexivity|].
    pose proof Hpre as Hpre'. simpl in Hpre'. apply andb_true_iff in Hpre' as [Ha _].
    destruct (@nextToken_alnum a t Ha) as (tok & rest & E).
    rewrite (boundaryTokens_step _ (@nextToken_prefix _ s _ _ Hend Hs E)).
    rewrite (boundaryTokens_step _ E).
    destruct (nextToken_app _ E) as [Happ Hne].
    pose proof (nextToken_shorter _ E) as Hshort.
    rewrite <- Happ, forallb_app in Hpre. apply andb_true_iff in Hpre as [_ Hrest].
    cbn [app]. f_equal. apply IH; try assumption.
    + simpl in Hshort, Hlen. lia.
    + destruct rest as [|r rest']; [reflexivity|].
      rewrite <- Happ in Hend. rewrite endsWith_app in Hend by discriminate. exact Hend.
Qed.

(** At the start of a run of two or more upper-case letters that a
    lower-case letter follows, the token is the run without its last
    letter. *)
Lemma nextToken_acronym run l rest :
  forallb isUpper run = true -> 2 <= length run -> isLower l = true ->
  nextToken (run ++ l :: rest) = Some (removelast run, last run l :: l :: rest).
Proof.
  intros Hrun Hlen Hl.
  destruct run as [|a [|b run']]; [simpl in Hlen; lia | simpl in Hlen; lia |].
  pose proof Hrun as Hrun'. simpl in Hrun'.
  apply andb_true_iff in Hrun' as [Ha [Hb _]%andb_true_iff].
  change ((a :: b :: run') ++ l :: rest) with (a :: b :: (run' ++ l :: rest)).
  unfold nextToken. rewrite Ha, Hb.
  change (a :: b :: (run' ++ l :: rest)) with ((a :: b :: run') ++ l :: rest).
  rewrite takeWhile_app, dropWhile_app by assumption.
  cbn [takeWhile dropWhile]. rewrite (lower_not_upper _ Hl). cbn [startsWith].
  rewrite Hl, app_nil_r. now rewrite !last_cons.
Qed.


Lemma words_lead p lead s :
  forallb p lead = true -> words p [] (lead ++ s) = words p [] s.
Proof.
  induction lead as [|a t IH]; [reflexivity|]. simpl.
  intros [Ha Ht]%andb_true_iff. rewrite Ha. auto.
Qed.

Lemma renderLowerCamel_alnum parts :
  Forall token parts -> forallb isAlnum (renderLowerCamel parts) = true.
Proof.
  intros H. destruct H as [|p0 ps [_ Hp0] Hps]; [reflexivity|].
  unfold renderLowerCamel, lower.
  rewrite forallb_app, lower_keeps_alnum by assumption.
  apply join_forallb; [reflexivity|].
  apply Forall_map. eapply Forall_impl; [|exact Hps].
  intros p [_ Hp]. destruct (test digitsRe p); [assumption|].
  now apply capitalize_keeps_alnum.
Qed.

Lemma renderDotCase_units parts :
  Forall token parts -> forallb isDotCaseUnit (renderDotCase parts) = true.
Proof.
  intros H. unfold renderDotCase. apply join_forallb; [reflexivity|].
  apply Forall_map. eapply Forall_impl; [|exact H].
  intros p [_ Hp]. apply lower_keeps_alnum in Hp.
  rewrite forallb_forall in *. intros a Ha. unfold isDotCaseUnit.
  now rewrite (Hp a Ha).
Qed.

Lemma toCamelCase_string s :
  toCamelCase (JString s) =
    Return (if truthy (trim s) then renderLowerCamel (tokenize (trim s)) else []).
Proof. unfold toCamelCase. destruct (trim s); reflexivity. Qed.

Lemma toDotCase_string s :
  toDotCase (JString s) =
    Return (if truthy (trim s) then renderDotCase (tokenize (trim s)) else []).
Proof. unfold toDotCase. destruct (trim s); reflexivity. Qed.

Lemma existsb_truthy p s : existsb p s = true -> truthy s = true.
Proof. destruct s; [discriminate | reflexivity]. Qed.

Lemma words_separator_run p seps b :
  seps <> [] -> forallb p seps = true ->
  forall a piece, words p piece (a ++ seps ++ b) = words p piece a ++ words p [] b.
Proof.
  intros Hne Hseps. induction a as [|x a IH]; intros piece.
  - destruct seps as [|c seps']; [congruence|].
    simpl in Hseps. apply andb_true_iff in Hseps as [Hc Hs'].
    simpl. rewrite Hc, (@words_lead p seps' b Hs'). destruct (truthy piece); reflexivity.
  - simpl. destruct (p x); [destruct (truthy piece)|]; now rewrite IH.
Qed.

(** ** The claims *)

(** C1 (as amended): for every input that is not a string, [toCamelCase] and
    [toDotCase] of refined_prompt.js throw a TypeError and [toKebabCase]
    throws an Error, and none of them returns a string; [toCamelCase] of
    basic_prompt.js returns the empty string instead of throwing. *)
Theorem non_string_input (v : JsValue) :
  typeof v <> "string"%string ->
  (exists message, toCamelCase v = Throw (TypeError message))
  /\ (exists message, toDotCase v = Throw (TypeError message))
  /\ toKebabCase v = Throw (Error "Invalid input: expected a non-null string.")
  /\ toCamelCase_basic v = Return [].
Proof.
  intros Hv. destruct v; try (now elim Hv); repeat split; eexists; reflexivity.
Qed.

(** C2 (as amended): when the trimmed input holds a code unit that is not
    an ASCII letter or digit, the tokens are the pieces of the split on the
    runs of such code units, that is the maximal runs of letters and digits,
    and both converters render exactly these; "userId_2" gives the tokens
    "userId" and "2". *)
Theorem separators_select_split :
  (forall s,
      existsb isSeparator (trim s) = true ->
      tokenize (trim s) = filter truthy (String_split (trim s) sepRe)
      /\ tokenize (trim s) = words isSeparator [] (trim s)
      /\ toCamelCase (JString s) = Return (renderLowerCamel (words isSeparator [] (trim s)))
      /\ toDotCase (JString s) = Return (renderDotCase (words isSeparator [] (trim s))))
  /\ tokenize (trim (str "userId_2")) = [str "userId"; str "2"].
Proof.
  split; [|reflexivity].
  intros s Hs.
  pose proof (tokenize_separators _ Hs) as Hw.
  rewrite toCamelCase_string, toDotCase_string, (existsb_truthy _ _ Hs), Hw.
  repeat split. symmetry. apply split_sepRe.
Qed.

(** C3: in an input of letters and digits only, a run of two or more
    upper-case letters that a lower-case letter follows is cut before its
    last letter: the run without that letter is one token, at the start of
    the input and after any prefix that does not end in an upper-case
    letter; "XMLHttpRequest" becomes "xmlHttpRequest" and
    "xml.http.request". *)
Theorem acronym_boundary :
  (forall pre run l rest,
      forallb isAlnum pre = true ->
      endsWith isUpper pre = false ->
      forallb isUpper run = true ->
      2 <= length run ->
      isLower l = true ->
      forallb isAlnum rest = true ->
      tokenize (pre ++ run ++ l :: rest) =
        (if truthy pre then tokenize pre else [])
          ++ removelast run :: tokenize (last run l :: l :: rest))
  /\ toCamelCase (JString (str "XMLHttpRequest")) = Return (str "xmlHttpRequest")
  /\ toDotCase (JString (str "XMLHttpRequest")) = Return (str "xml.http.request").
Proof.
  split; [|split; reflexivity].
  intros pre run l rest Hpre Hend Hrun Hlen Hl Hrest.
  assert (forallb isAlnum run = true) as Hrun'.
  { rewrite forallb_forall in *. intros a Ha. apply upper_alnum. auto. }
  assert (isUpper (last run l) = true) as Hlast.
  { rewrite forallb_forall in Hrun. apply Hrun.
    destruct run as [|a run']; [simpl in Hlen; lia|].
    rewrite (app_removelast_last l (l := a :: run')) at 2 by discriminate.
    apply in_or_app. right. now left. }
  assert (forallb isAlnum (last run l :: l :: rest) = true) as Htail.
  { simpl. now rewrite (upper_alnum _ Hlast), (lower_alnum _ Hl). }
  assert (forallb isAlnum (run ++ l :: rest) = true) as Hmid.
  { rewrite forallb_app, Hrun'. simpl. now rewrite (lower_alnum _ Hl). }
  assert (run <> []) as Hne by (destruct run; [simpl in Hlen; lia | discriminate]).
  assert (boundaryTokens (run ++ l :: rest) =
            removelast run :: boundaryTokens (last run l :: l :: rest)) as Hstep
    by (apply boundaryTokens_step, nextToken_acronym; assumption).
  assert (startsWith isUpper (run ++ l :: rest) = true) as Hstart.
  { destruct run as [|a run']; [congruence|].
    simpl in Hrun. now apply andb_true_iff in Hrun as [Ha _]. }
  destruct pre as [|a pre'].
  - cbn [app truthy]. rewrite !tokenize_alnum; try assumption; try discriminate.
    intros [E _]%app_eq_nil. contradiction.
  - cbn [truthy]. rewrite !tokenize_alnum; try assumption; try discriminate.
    + rewrite (@boundaryTokens_prefix (length (a :: pre'))); try assumption; try lia.
      now rewrite Hstep.
    + rewrite forallb_app, Hpre. exact Hmid.
Qed.

(** C4: the LowerCamel renderer puts the first token in lower case, every
    later token with its first code unit in upper case and the others in
    lower case, except a token of digits only, which it copies, and
    concatenates them; "item 42 count" becomes "item42Count". *)
Theorem lowerCamel_renderer :
  (forall parts, renderLowerCamel parts = lowerCamel_spec parts)
  /\ toCamelCase (JString (str "item 42 count")) = Return (str "item42Count").
Proof.
  split; [|reflexivity].
  intros [|p0 ps]; [reflexivity|].
  unfold renderLowerCamel, lowerCamel_spec, lower. f_equal.
  rewrite join_nil_concat. f_equal. apply map_ext. intros p.
  rewrite test_digitsRe. unfold camelToken_spec, capitalize.
  destruct p as [|c t]; [reflexivity|].
  cbn [truthy andb firstn skipn]. reflexivity.
Qed.

(** C5: the DotCase renderer puts every token in lower case and joins the
    tokens with one dot; "SCREEN_NAME" becomes "screen.name", and
    "screenName" in camel case. *)
Theorem dotCase_renderer :
  (forall parts, renderDotCase parts = dotCase_spec parts)
  /\ toDotCase (JString (str "SCREEN_NAME")) = Return (str "screen.name")
  /\ toCamelCase (JString (str "SCREEN_NAME")) = Return (str "screenName").
Proof.
  split; [|split; reflexivity].
  unfold renderDotCase.
  induction parts as [|p ps IH]; [reflexivity|].
  destruct ps as [|q ps]; [reflexivity|].
  cbn [map]. rewrite join_cons by discriminate.
  cbn [map] in IH. rewrite IH. reflexivity.
Qed.

(** C6: for every string, [toKebabCase] takes the white space off both
    ends, puts one hyphen in the place of every maximal run of white space
    that is left, keeps the other code units in their order, and puts the
    result in lower case; "Hello   World" becomes "hello-world". *)
Theorem kebabCase_collapses_white_space :
  (forall s,
      exists lead core trail,
        s = lead ++ core ++ trail
        /\ forallb isWhiteSpace lead = true
        /\ forallb isWhiteSpace trail = true
        /\ startsWith isWhiteSpace core = false
        /\ endsWith isWhiteSpace core = false
        /\ toKebabCase (JString s) = Return (toLowerCase (collapseWhiteSpace false core)))
  /\ (forall s, toKebabCase (JString s) = Return (kebabCase_spec s))
  /\ toKebabCase (JString (str "Hello   World")) = Return (str "hello-world").
Proof.
  assert (forall s, toKebabCase (JString s) = Return (kebabCase_spec s)) as Hspec.
  { intros s. unfold toKebabCase, kebabCase_spec.
    rewrite split_fields with (p := isWhiteSpace) by apply spaceRe_runs.
    change (str "-") with [ch "-"]. now rewrite join_fields_space. }
  split; [|split; [exact Hspec | reflexivity]].
  intros s. destruct (trim_spec s) as (lead & trail & Hs & Hl & Ht & Hstart & Hend).
  exists lead, (trim s), trail. repeat split; try assumption. apply Hspec.
Qed.

(** C7: on the empty string and on every string of white space only, each
    converter returns the empty string. *)
Theorem white_space_only_input (s : jsstring) :
  forallb isWhiteSpace s = true ->
  toCamelCase (JString s) = Return []
  /\ toDotCase (JString s) = Return []
  /\ toKebabCase (JString s) = Return []
  /\ toCamelCase_basic (JString s) = Return [].
Proof.
  intros Hs. unfold toCamelCase, toDotCase, toKebabCase, toCamelCase_basic.
  rewrite (trim_whitespace _ Hs). repeat split; reflexivity.
Qed.

(** C9: [toCamelCase] applied to its own result on "first name" gives that
    result again, "firstName". *)
Theorem toCamelCase_first_name_twice :
  toCamelCase (JString (str "first name")) = Return (str "firstName")
  /\ match toCamelCase (JString (str "first name")) with
     | Return r => toCamelCase (JString r)
     | Throw e => Throw e
     end = toCamelCase (JString (str "first name")).
Proof. split; reflexivity. Qed.

(** C10: on every string [toCamelCase] and [toDotCase] return, and never
    throw; the result of [toCamelCase] holds ASCII letters and digits only,
    the result of [toDotCase] ASCII letters, digits and dots only. *)
Theorem converters_total (s : jsstring) :
  (exists r, toCamelCase (JString s) = Return r /\ forallb isAlnum r = true)
  /\ (exists r, toDotCase (JString s) = Return r /\ forallb isDotCaseUnit r = true).
Proof.
  rewrite toCamelCase_string, toDotCase_string.
  destruct (trim s) as [|a t] eqn:E; cbn [truthy].
  - split; eexists; split; reflexivity.
  - assert (Forall token (tokenize (a :: t))) as Htok
      by (apply tokenize_tokens; discriminate).
    split; eexists; (split; [reflexivity|]).
    + now apply renderLowerCamel_alnum.
    + now apply renderDotCase_units.
Qed.

(** ** Further properties of the converters *)

(** *** Letters, digits and white space *)

Lemma not_space_range c : (33 <= c <= 159)%N -> isWhiteSpace c = false.
Proof.
  intros Hc. unfold isWhiteSpace, inRange.
  repeat apply orb_false_intro;
    try (apply N.eqb_neq; lia);
    apply andb_false_iff;
    solve [left; apply N.leb_gt; lia | right; apply N.leb_gt; lia].
Qed.

Lemma whitespace_separator c : isWhiteSpace c = true -> isSeparator c = true.
Proof.
  intros Hw. unfold isSeparator. destruct (isAlnum c) eqn:Ha; [|reflexivity].
  assert (48 <= c <= 122)%N as Hc by (revert Ha; classes).
  rewrite not_space_range in Hw by lia. discriminate.
Qed.

Lemma asciiLower_idem c : asciiLower (asciiLower c) = asciiLower c.
Proof. classes. Qed.

Lemma asciiUpper_lower c : asciiUpper (asciiLower c) = asciiUpper c.
Proof. classes. Qed.

Lemma asciiLower_upper c : asciiLower (asciiUpper c) = asciiLower c.
Proof. classes. Qed.

Lemma isDigit_asciiLower c : isDigit (asciiLower c) = isDigit c.
Proof. classes. Qed.

Lemma digit_asciiLower c : isDigit c = true -> asciiLower c = c.
Proof. classes. Qed.

Lemma digit_asciiUpper c : isDigit c = true -> asciiUpper c = c.
Proof. classes. Qed.

Lemma digit_is_alnum c : isDigit c = true -> isAlnum c = true.
Proof. unfold isAlnum. intros ->. now rewrite orb_true_r. Qed.

Lemma asciiLower_lowerOrDigit c : isAlnum c = true -> isLowerOrDigit (asciiLower c) = true.
Proof. unfold isLowerOrDigit. classes. Qed.

Lemma asciiLower_ascii c : isAscii c = true -> isAscii (asciiLower c) = true.
Proof. classes. Qed.

Lemma asciiLower_not_upper c : isUpper (asciiLower c) = false.
Proof. classes. Qed.

Lemma asciiLower_space c : isWhiteSpace (asciiLower c) = isWhiteSpace c.
Proof.
  unfold asciiLower. destruct (isUpper c) eqn:Hu; [|reflexivity].
  assert (65 <= c <= 90)%N as Hc by (revert Hu; classes).
  now rewrite !not_space_range by lia.
Qed.

Lemma forallb_impl (P Q : codeunit -> bool) s :
  (forall c, P c = true -> Q c = true) -> forallb P s = true -> forallb Q s = true.
Proof. rewrite !forallb_forall. auto. Qed.

Lemma map_id_on (f : codeunit -> codeunit) (P : codeunit -> bool) s :
  (forall c, P c = true -> f c = c) -> forallb P s = true -> map f s = s.
Proof.
  intros Hf. induction s as [|a t IH]; [reflexivity|]. simpl.
  intros [Ha Ht]%andb_true_iff. now rewrite (Hf a Ha), IH.
Qed.

(** *** The split on separators, once more *)

Lemma words_only_separators p trail :
  forallb p trail = true ->
  forall piece, words p piece trail = if truthy piece then [piece] else [].
Proof.
  induction trail as [|a t IH]; [reflexivity|]. simpl.
  intros [Ha Ht]%andb_true_iff piece. rewrite Ha, (IH Ht []).
  reflexivity.
Qed.

Lemma words_trail p trail :
  forallb p trail = true ->
  forall s piece, words p piece (s ++ trail) = words p piece s.
Proof.
  intros Ht. induction s as [|a t IH]; intros piece.
  - now apply words_only_separators.
  - simpl. destruct (p a); [destruct (truthy piece)|]; now rewrite IH.
Qed.

(** White space is a separator, so the trim does not change the pieces. *)
Lemma words_trim s : words isSeparator [] (trim s) = words isSeparator [] s.
Proof.
  destruct (trim_spec s) as (lead & trail & Hs & Hl & Ht & _).
  rewrite Hs at 2.
  rewrite words_lead by (revert Hl; apply forallb_impl, whitespace_separator).
  rewrite words_trail by (revert Ht; apply forallb_impl, whitespace_separator).
  reflexivity.
Qed.

Lemma words_alnum_run :
  forall u piece,
    forallb isAlnum u = true ->
    words isSeparator piece u = if truthy (piece ++ u) then [piece ++ u] else [].
Proof.
  induction u as [|a t IH]; intros piece Hu.
  - simpl. now rewrite app_nil_r.
  - simpl in Hu. apply andb_true_iff in Hu as [Ha Ht].
    simpl. unfold isSeparator at 1. rewrite Ha. cbn [negb].
    rewrite IH by assumption. now rewrite <- app_assoc.
Qed.

Lemma words_token t : token t -> words isSeparator [] t = [t].
Proof.
  intros [Hne Ht]. rewrite words_alnum_run by assumption. cbn [app]. now rewrite Hne.
Qed.

(** Joining tokens with separators and splitting again gives the tokens. *)
Lemma words_join sep ts :
  sep <> [] -> forallb isSeparator sep = true -> Forall token ts ->
  words isSeparator [] (join sep ts) = ts.
Proof.
  intros Hne Hsep. induction 1 as [|t ts Ht Hts IH]; [reflexivity|].
  destruct ts as [|t' ts]; [now apply words_token|].
  rewrite join_cons by discriminate.
  rewrite words_separator_run by assumption.
  now rewrite IH, words_token.
Qed.

Lemma concat_words :
  forall s piece, concat (words isSeparator piece s) = piece ++ filter isAlnum s.
Proof.
  induction s as [|a t IH]; intros piece; simpl.
  - destruct piece; simpl; now rewrite ?app_nil_r.
  - unfold isSeparator at 1. destruct (isAlnum a); cbn [negb].
    + rewrite IH. now rewrite <- app_assoc.
    + destruct piece; simpl; now rewrite IH.
Qed.

(** *** Camel case of tokens *)

Lemma upper_unit c : isAlnum c = true -> toUpperCase [c] = [asciiUpper c].
Proof. intros Hc. rewrite toUpperCase_alnum; [reflexivity | simpl; now rewrite Hc]. Qed.

Lemma lower_token t : token t -> token (toLowerCase t).
Proof.
  intros [Hne Ht]. split; [|now apply lower_keeps_alnum].
  rewrite toLowerCase_alnum by assumption. destruct t; [discriminate | reflexivity].
Qed.

Lemma lower_lower t :
  forallb isAlnum t = true -> toLowerCase (toLowerCase t) = toLowerCase t.
Proof.
  intros Ht. rewrite (toLowerCase_alnum (toLowerCase t)) by now apply lower_keeps_alnum.
  rewrite toLowerCase_alnum by assumption. rewrite map_map.
  apply map_ext. apply asciiLower_idem.
Qed.

Lemma capitalize_capToken p : capitalize p = capToken p.
Proof. destruct p; reflexivity. Qed.

Lemma digits_alnum p : forallb isDigit p = true -> forallb isAlnum p = true.
Proof. apply forallb_impl, digit_is_alnum. Qed.

Lemma digits_capToken p : forallb isDigit p = true -> capToken p = p.
Proof.
  destruct p as [|c t]; [reflexivity|]. intros Hp.
  pose proof (digits_alnum _ Hp) as Ha.
  simpl in Hp, Ha. apply andb_true_iff in Hp as [Hc Ht]. apply andb_true_iff in Ha as [Hc' Ht'].
  unfold capToken. cbn [firstn skipn].
  rewrite upper_unit, toLowerCase_alnum by assumption.
  rewrite (digit_asciiUpper _ Hc), (map_id_on asciiLower isDigit) by (assumption || apply digit_asciiLower).
  reflexivity.
Qed.

Lemma camelToken_capToken p :
  (if test digitsRe p then p else capitalize p) = capToken p.
Proof.
  rewrite test_digitsRe, capitalize_capToken.
  destruct p as [|c t]; [reflexivity|]. cbn [truthy andb].
  destruct (forallb isDigit (c :: t)) eqn:E; [|reflexivity].
  symmetry. now apply digits_capToken.
Qed.

Lemma basic_capToken p :
  token p ->
  toUpperCase (firstn 1 (toLowerCase p)) ++ skipn 1 (toLowerCase p) = capToken p.
Proof.
  intros [Hne Hp]. destruct p as [|c t]; [discriminate|].
  rewrite toLowerCase_alnum by assumption.
  simpl in Hp. apply andb_true_iff in Hp as [Hc Ht].
  unfold capToken. cbn [map firstn skipn].
  rewrite !upper_unit by (assumption || now apply asciiLower_alnum).
  now rewrite asciiUpper_lower, toLowerCase_alnum.
Qed.

Lemma renderLowerCamel_tokens ts : renderLowerCamel ts = camelOfTokens ts.
Proof.
  destruct ts as [|p0 ps]; [reflexivity|].
  unfold renderLowerCamel, camelOfTokens, lower. f_equal.
  rewrite join_nil_concat. f_equal. apply map_ext, camelToken_capToken.
Qed.

Lemma mapi_map_in {A B : Type} (f : A -> nat -> B) (g : A -> B) l :
  forall n, (forall a, In a l -> f a (S n) = g a) ->
            (forall a k, f a (S k) = f a (S n)) ->
            mapi f (S n) l = map g l.
Proof.
  induction l as [|a l IH]; intros n Hfg Hk; [reflexivity|].
  cbn [mapi map]. f_equal; [apply Hfg; now left|].
  apply IH.
  - intros b Hb. rewrite (Hk b (S n)). apply Hfg. now right.
  - intros b k. now rewrite (Hk b k), (Hk b (S n)).
Qed.

Lemma toCamelCase_basic_string s :
  toCamelCase_basic (JString s) = Return (camelOfTokens (words isSeparator [] s)).
Proof.
  unfold toCamelCase_basic. rewrite split_sepRe, words_trim. f_equal.
  pose proof (words_tokens s) as Htok.
  destruct (words isSeparator [] s) as [|p0 ps]; [reflexivity|].
  cbn [mapi]. rewrite join_nil_concat. cbn [concat Nat.eqb camelOfTokens]. f_equal. f_equal.
  apply mapi_map_in.
  - intros p Hp. cbn [Nat.eqb]. apply basic_capToken.
    inversion Htok as [|? ? _ Hps]; subst. rewrite Forall_forall in Hps. auto.
  - reflexivity.
Qed.

Lemma toCamelCase_fewShot_string s :
  toCamelCase_fewShot (JString s) = Return (camelOfTokens (words isSeparator [] s)).
Proof.
  unfold toCamelCase_fewShot. rewrite split_sepRe.
  destruct s as [|c s']; [reflexivity|]. cbn [toBoolean negb].
  destruct (words isSeparator [] (c :: s')) as [|p0 ps]; [reflexivity|].
  now rewrite join_nil_concat.
Qed.

Lemma toCamelCase_separators s :
  existsb isSeparator (trim s) = true ->
  toCamelCase (JString s) = Return (camelOfTokens (words isSeparator [] s)).
Proof.
  intros Hs. rewrite toCamelCase_string, (existsb_truthy _ _ Hs).
  now rewrite (tokenize_separators _ Hs), renderLowerCamel_tokens, words_trim.
Qed.

(** *** The three [toCamelCase] compared *)

(** X1: on every string the [toCamelCase] of few_shot_prompt.js and of
    basic_prompt.js return the same string. *)
Theorem fewShot_agrees_with_basic (s : jsstring) :
  toCamelCase_fewShot (JString s) = toCamelCase_basic (JString s).
Proof. now rewrite toCamelCase_fewShot_string, toCamelCase_basic_string. Qed.

(** X2: when the trimmed input holds a separator, the [toCamelCase] of
    refined_prompt.js returns what the two simpler ones return. *)
Theorem refined_agrees_with_basic (s : jsstring) :
  existsb isSeparator (trim s) = true ->
  toCamelCase (JString s) = toCamelCase_basic (JString s)
  /\ toCamelCase (JString s) = toCamelCase_fewShot (JString s).
Proof.
  intros Hs.
  now rewrite toCamelCase_separators, toCamelCase_fewShot_string, toCamelCase_basic_string.
Qed.

(** X3: when the trimmed input holds letters and digits only, the two
    simpler [toCamelCase] return it in lower case, whatever capitals it
    holds. *)
Theorem basic_lowercases_identifier (s : jsstring) :
  forallb isAlnum (trim s) = true ->
  toCamelCase_basic (JString s) = Return (map asciiLower (trim s))
  /\ toCamelCase_fewShot (JString s) = Return (map asciiLower (trim s)).
Proof.
  intros Hs.
  rewrite toCamelCase_fewShot_string, toCamelCase_basic_string, <- words_trim.
  rewrite words_alnum_run by assumption. cbn [app].
  destruct (trim s) as [|c u] eqn:E; [split; reflexivity|].
  cbn [truthy camelOfTokens map concat]. rewrite app_nil_r.
  now rewrite toLowerCase_alnum.
Qed.

(** X4: on a value that is not a string and has no [split] method, the
    [toCamelCase] of few_shot_prompt.js returns the empty string when the
    value is falsy and throws a TypeError when it is truthy. *)
Theorem fewShot_non_string (v : JsValue) :
  typeof v <> "string"%string ->
  (forall name, getSplit v <> JFunction name) ->
  toCamelCase_fewShot v =
    if toBoolean v then Throw (TypeError "input.split is not a function")
    else Return [].
Proof.
  intros Hv Hsplit. unfold toCamelCase_fewShot.
  destruct (toBoolean v); [|reflexivity]. cbn [negb].
  destruct v; try reflexivity; try (now elim Hv).
  destruct (getSplit (JObject props)) eqn:E; try reflexivity.
  now elim (Hsplit name).
Qed.

(** *** Tokens of a dot.case result *)

Lemma dropWhile_nil_all p s : dropWhile p s = [] -> forallb p s = true.
Proof.
  intros E. rewrite <- (takeWhile_dropWhile p s), E, app_nil_r. apply takeWhile_all.
Qed.

Lemma takeWhile_whole p s : forallb p s = true -> takeWhile p s = s.
Proof.
  intros H. rewrite <- (takeWhile_dropWhile p s) at 2.
  now rewrite (dropWhile_all _ _ H), app_nil_r.
Qed.

Lemma filter_whole (p : codeunit -> bool) s : forallb p s = true -> filter p s = s.
Proof.
  induction s as [|a t IH]; [reflexivity|]. simpl.
  intros [Ha Ht]%andb_true_iff. now rewrite Ha, IH.
Qed.

Lemma filter_none (p q : codeunit -> bool) s :
  (forall c, q c = true -> p c = false) -> forallb q s = true -> filter p s = [].
Proof.
  intros Hpq. induction s as [|a t IH]; [reflexivity|]. simpl.
  intros [Ha Ht]%andb_true_iff. now rewrite (Hpq a Ha), IH.
Qed.

Lemma trim_id r :
  startsWith isWhiteSpace r = false -> endsWith isWhiteSpace r = false -> trim r = r.
Proof.
  intros Hs He. unfold trim, trimEnd. rewrite !trimStart_dropWhile.
  rewrite (dropWhile_none _ _ Hs). unfold endsWith in He.
  rewrite (dropWhile_none _ _ He). apply rev_involutive.
Qed.

Lemma trim_no_space r :
  forallb (fun c => negb (isWhiteSpace c)) r = true -> trim r = r.
Proof.
  intros H. apply trim_id.
  - destruct r as [|a t]; [reflexivity|]. simpl in *.
    apply andb_true_iff in H as [Ha _]. now apply negb_true_iff.
  - unfold endsWith. rewrite <- forallb_rev in H.
    destruct (rev r) as [|a t]; [reflexivity|]. simpl in *.
    apply andb_true_iff in H as [Ha _]. now apply negb_true_iff.
Qed.

Lemma dotCaseUnit_no_space c : isDotCaseUnit c = true -> negb (isWhiteSpace c) = true.
Proof.
  unfold isDotCaseUnit. intros [Ha|Hd]%orb_true_iff; apply negb_true_iff.
  - apply not_space_range. revert Ha. classes.
  - apply N.eqb_eq in Hd. subst c. reflexivity.
Qed.

Lemma alnum_no_space c : isAlnum c = true -> negb (isWhiteSpace c) = true.
Proof. intros H. apply dotCaseUnit_no_space. unfold isDotCaseUnit. now rewrite H. Qed.

Lemma join_sep_exists (P : codeunit -> bool) sep t t' ts :
  existsb P sep = true -> existsb P (join sep (t :: t' :: ts)) = true.
Proof.
  intros H. rewrite join_cons by discriminate.
  rewrite !existsb_app, H. now rewrite orb_true_r.
Qed.

Lemma existsb_dot_separator r : existsb isDot r = true -> existsb isSeparator r = true.
Proof.
  rewrite !existsb_exists. intros (c & Hin & Hc). exists c. split; [assumption|].
  apply N.eqb_eq in Hc. subst c. reflexivity.
Qed.

Lemma map_lower_tokens ts : Forall token ts -> Forall token (map toLowerCase ts).
Proof. intros H. apply Forall_map. revert H. apply Forall_impl, lower_token. Qed.

Lemma map_lower_lower ts :
  Forall token ts -> map toLowerCase (map toLowerCase ts) = map toLowerCase ts.
Proof.
  intros H. rewrite map_map. apply map_ext_in. intros t Ht.
  rewrite Forall_forall in H. apply lower_lower, (H t Ht).
Qed.

(** A string of letters or of digits that is one token of the boundary scan
    is one token still when put in lower case. *)
Lemma single_token_shape u :
  nextToken u = Some (u, []) ->
  forallb isDigit u = true \/ forallb (fun c => isUpper c || isLower c) u = true.
Proof.
  destruct u as [|a t]; [discriminate|]. unfold nextToken.
  pose proof (@dropWhile_nil_all isUpper (a :: t)) as Hu.
  pose proof (@dropWhile_nil_all isLower (a :: t)) as Hl.
  pose proof (@dropWhile_nil_all isDigit (a :: t)) as Hd.
  pose proof (@dropWhile_nil_all isLower t) as Hl'.
  assert (forall c, isUpper c = true -> isUpper c || isLower c = true) as Lu
    by (now intros c ->).
  assert (forall c, isLower c = true -> isUpper c || isLower c = true) as Ll
    by (intros c ->; apply orb_true_r).
  remember (dropWhile isUpper (a :: t)) as du.
  remember (dropWhile isLower (a :: t)) as dl.
  remember (dropWhile isDigit (a :: t)) as dd.
  remember (dropWhile isLower t) as dl'.
  destruct (isUpper a) eqn:Ea.
  - destruct (startsWith isLower du) eqn:El.
    + destruct t as [|b t']; [intros _; right; simpl; now rewrite Ea|].
      destruct (isUpper b) eqn:Eb; [discriminate|].
      intros [= _ E]. right.
      change ((isUpper a || isLower a)
              && forallb (fun c => isUpper c || isLower c) (b :: t') = true).
      rewrite Ea. cbn [orb andb].
      generalize (Hl' E). apply forallb_impl, Ll.
    + intros [= _ E]. right. generalize (Hu E). apply forallb_impl, Lu.
  - destruct (isLower a) eqn:El.
    + intros [= _ E]. right. generalize (Hl E). apply forallb_impl, Ll.
    + destruct (isDigit a) eqn:Ed; [|discriminate].
      intros [= _ E]. left. exact (Hd E).
Qed.

Lemma nextToken_lower_run v :
  v <> [] -> forallb isLower v = true -> nextToken v = Some (v, []).
Proof.
  intros Hne Hv. destruct v as [|a t]; [congruence|].
  pose proof Hv as Hv'. simpl in Hv'. apply andb_true_iff in Hv' as [Ha _].
  unfold nextToken. rewrite (lower_not_upper _ Ha), Ha.
  now rewrite takeWhile_whole, dropWhile_all.
Qed.

Lemma nextToken_digit_run v :
  v <> [] -> forallb isDigit v = true -> nextToken v = Some (v, []).
Proof.
  intros Hne Hv. destruct v as [|a t]; [congruence|].
  pose proof Hv as Hv'. simpl in Hv'. apply andb_true_iff in Hv' as [Ha _].
  unfold nextToken.
  assert (isUpper a = false) as -> by (revert Ha; classes).
  assert (isLower a = false) as -> by (revert Ha; classes).
  rewrite Ha. now rewrite takeWhile_whole, dropWhile_all.
Qed.

Lemma single_token_lower u :
  forallb isAlnum u = true ->
  boundaryTokens u = [u] ->
  boundaryTokens (map asciiLower u) = [map asciiLower u].
Proof.
  intros Hu Hone. destruct u as [|a t]; [discriminate|].
  pose proof Hu as Hu'. simpl in Hu'. apply andb_true_iff in Hu' as [Ha _].
  destruct (@nextToken_alnum a t Ha) as (tok & rest & E).
  rewrite (boundaryTokens_step _ E) in Hone. injection Hone as Htok Hrest.
  destruct (nextToken_app _ E) as [Happ _]. subst tok.
  assert (rest = []) as -> by (apply (app_inv_head (a :: t)); now rewrite app_nil_r).
  assert (nextToken (map asciiLower (a :: t)) = Some (map asciiLower (a :: t), [])) as E'.
  { destruct (single_token_shape E) as [Hd|Hl].
    - rewrite (map_id_on asciiLower isDigit) by (assumption || apply digit_asciiLower).
      apply nextToken_digit_run; [discriminate | assumption].
    - apply nextToken_lower_run; [discriminate|].
      rewrite forallb_forall in *. intros c [b [<- Hb]]%in_map_iff.
      specialize (Hl b Hb). revert Hl. classes. }
  now rewrite (boundaryTokens_step _ E').
Qed.

(** The tokens of a dot.case result are the tokens of the input in lower
    case, when the result holds a dot or the input holds letters and digits
    only. *)
Lemma dotCase_tokens u :
  u <> [] ->
  existsb isDot (renderDotCase (tokenize u)) = true \/ forallb isAlnum u = true ->
  trim (renderDotCase (tokenize u)) = renderDotCase (tokenize u)
  /\ truthy (renderDotCase (tokenize u)) = true
  /\ tokenize (renderDotCase (tokenize u)) = map toLowerCase (tokenize u).
Proof.
  intros Hne Hcase.
  pose proof (tokenize_tokens Hne) as Htok.
  assert (trim (renderDotCase (tokenize u)) = renderDotCase (tokenize u)) as Htrim.
  { apply trim_no_space. generalize (renderDotCase_units Htok).
    apply forallb_impl, dotCaseUnit_no_space. }
  assert (existsb isDot (renderDotCase (tokenize u)) = true ->
          truthy (renderDotCase (tokenize u)) = true
          /\ tokenize (renderDotCase (tokenize u)) = map toLowerCase (tokenize u)) as Hdot.
  { intros Hd. split; [now apply existsb_truthy in Hd|].
    rewrite tokenize_separators by now apply existsb_dot_separator.
    unfold renderDotCase. apply words_join; [discriminate | reflexivity|].
    now apply map_lower_tokens. }
  split; [exact Htrim|].
  destruct (existsb isDot (renderDotCase (tokenize u))) eqn:Ed; [now apply Hdot|].
  destruct Hcase as [Hc|Hu]; [discriminate|].
  rewrite tokenize_alnum in * by assumption.
  destruct (boundaryTokens_partition _ Hu) as [_ Hcat].
  destruct (boundaryTokens u) as [|t [|t' ts]] eqn:Eb.
  - simpl in Hcat. congruence.
  - simpl in Hcat. rewrite app_nil_r in Hcat. subst t.
    unfold renderDotCase. cbn [map join].
    rewrite toLowerCase_alnum by assumption.
    assert (forallb isAlnum (map asciiLower u) = true) as Hl.
    { rewrite <- toLowerCase_alnum by assumption. now apply lower_keeps_alnum. }
    split; [destruct u; [congruence | reflexivity]|].
    rewrite tokenize_alnum;
      [now apply single_token_lower | destruct u; [congruence | discriminate] | assumption].
  - unfold renderDotCase in Ed. cbn [map] in Ed.
    rewrite join_sep_exists in Ed by reflexivity. discriminate.
Qed.

Lemma camelOfTokens_lower ts :
  Forall token ts -> camelOfTokens (map toLowerCase ts) = camelOfTokens ts.
Proof.
  intros H. destruct H as [|p0 ps [_ Hp0] Hps]; [reflexivity|].
  cbn [map camelOfTokens]. rewrite lower_lower by assumption. f_equal. f_equal.
  rewrite map_map. apply map_ext_in. intros p Hp.
  rewrite Forall_forall in Hps. destruct (Hps p Hp) as [Hne Ha].
  destruct p as [|c t]; [discriminate|].
  rewrite toLowerCase_alnum by assumption.
  simpl in Ha. apply andb_true_iff in Ha as [Hc Ht].
  unfold capToken. cbn [map firstn skipn].
  rewrite !upper_unit by (assumption || now apply asciiLower_alnum).
  rewrite asciiUpper_lower, <- toLowerCase_alnum by assumption.
  now rewrite lower_lower.
Qed.

(** X5: [toDotCase] applied to its own result gives that result again, when
    the result holds a dot or the trimmed input holds letters and digits
    only. *)
Theorem toDotCase_twice (s r : jsstring) :
  toDotCase (JString s) = Return r ->
  existsb isDot r = true \/ forallb isAlnum (trim s) = true ->
  toDotCase (JString r) = Return r.
Proof.
  rewrite toDotCase_string. destruct (trim s) as [|c u] eqn:E; cbn [truthy].
  - intros [= <-] _. reflexivity.
  - intros [= <-] Hcase.
    destruct (@dotCase_tokens (c :: u)) as (Htrim & Hne & Htok); [discriminate | assumption|].
    rewrite toDotCase_string, Htrim, Hne, Htok. f_equal.
    unfold renderDotCase. rewrite map_lower_lower; [reflexivity|].
    apply tokenize_tokens. discriminate.
Qed.

(** X6: [toCamelCase] of the result of [toDotCase] is [toCamelCase] of the
    input, when that result holds a dot or the trimmed input holds letters
    and digits only. *)
Theorem toCamelCase_of_toDotCase (s r : jsstring) :
  toDotCase (JString s) = Return r ->
  existsb isDot r = true \/ forallb isAlnum (trim s) = true ->
  toCamelCase (JString r) = toCamelCase (JString s).
Proof.
  rewrite toDotCase_string, (toCamelCase_string s).
  destruct (trim s) as [|c u] eqn:E; cbn [truthy].
  - intros [= <-] _. reflexivity.
  - intros [= <-] Hcase.
    destruct (@dotCase_tokens (c :: u)) as (Htrim & Hne & Htok); [discriminate | assumption|].
    rewrite toCamelCase_string, Htrim, Hne, Htok. f_equal.
    rewrite !renderLowerCamel_tokens. apply camelOfTokens_lower.
    apply tokenize_tokens. discriminate.
Qed.

(** *** What the converters keep of the input *)

Lemma concat_tokenize u : concat (tokenize u) = filter isAlnum u.
Proof.
  destruct u as [|c u']; [reflexivity|].
  destruct (forallb isAlnum (c :: u')) eqn:Hu.
  - rewrite tokenize_alnum by (discriminate || assumption).
    rewrite filter_whole by assumption. now apply boundaryTokens_partition.
  - rewrite tokenize_separators by (now rewrite existsb_separator, Hu).
    apply concat_words.
Qed.

Lemma filter_alnum_trim s : filter isAlnum (trim s) = filter isAlnum s.
Proof.
  destruct (trim_spec s) as (lead & trail & Hs & Hl & Ht & _).
  assert (forall c, isWhiteSpace c = true -> isAlnum c = false) as Hws.
  { intros c Hc. apply whitespace_separator in Hc. now apply negb_true_iff in Hc. }
  rewrite Hs at 2. rewrite !filter_app.
  rewrite (filter_none isAlnum isWhiteSpace lead), (filter_none isAlnum isWhiteSpace trail)
    by assumption.
  now rewrite app_nil_r.
Qed.

Lemma lower_capToken p :
  forallb isAlnum p = true -> map asciiLower (capToken p) = map asciiLower p.
Proof.
  destruct p as [|c t]; [reflexivity|]. simpl forallb.
  intros [Hc Ht]%andb_true_iff. unfold capToken. cbn [firstn skipn].
  rewrite upper_unit, toLowerCase_alnum by assumption.
  cbn [app map]. rewrite asciiLower_upper, map_map. f_equal.
  apply map_ext, asciiLower_idem.
Qed.

Lemma lower_camelOfTokens ts :
  Forall token ts -> map asciiLower (camelOfTokens ts) = map asciiLower (concat ts).
Proof.
  intros H. destruct H as [|p0 ps [_ Hp0] Hps]; [reflexivity|].
  cbn [camelOfTokens concat]. rewrite !map_app. f_equal.
  - rewrite toLowerCase_alnum, map_map by assumption. apply map_ext, asciiLower_idem.
  - rewrite !concat_map, map_map. f_equal. apply map_ext_in. intros p Hp.
    rewrite Forall_forall in Hps. apply lower_capToken, (Hps p Hp).
Qed.

Lemma filter_join_dot ls :
  Forall token ls ->
  filter (fun c => negb (isDot c)) (join (str ".") ls) = concat ls.
Proof.
  assert (forall l, forallb isAlnum l = true -> filter (fun c => negb (isDot c)) l = l) as Hkeep.
  { intros l Hl. apply filter_whole. revert Hl. apply forallb_impl.
    intros c Hc. unfold isDot. apply negb_true_iff, N.eqb_neq.
    intros ->. discriminate. }
  induction 1 as [|t ls [_ Ht] Hls IH]; [reflexivity|].
  destruct ls as [|t' ls]; [simpl; rewrite app_nil_r; now apply Hkeep|].
  rewrite join_cons by discriminate. rewrite !filter_app, IH, Hkeep by assumption.
  reflexivity.
Qed.

(** X7: the tokens of any string, put one after the other, are its letters
    and digits in their order; nothing else is kept and nothing is lost, and
    no token of a non-empty string is empty. *)
Theorem tokenize_keeps_letters_and_digits :
  (forall u, concat (tokenize u) = filter isAlnum u)
  /\ (forall c u, Forall token (tokenize (c :: u))).
Proof.
  split; [apply concat_tokenize|].
  intros c u. apply tokenize_tokens. discriminate.
Qed.

(** X8: [toCamelCase] changes the case of letters and drops separators,
    nothing more: its result in lower case is the letters and digits of the
    input, in their order, in lower case.  The same holds of the two simpler
    [toCamelCase]. *)
Theorem toCamelCase_keeps_letters_and_digits (s : jsstring) :
  (exists r, toCamelCase (JString s) = Return r
             /\ map asciiLower r = map asciiLower (filter isAlnum s))
  /\ (exists r, toCamelCase_basic (JString s) = Return r
                /\ map asciiLower r = map asciiLower (filter isAlnum s))
  /\ (exists r, toCamelCase_fewShot (JString s) = Return r
                /\ map asciiLower r = map asciiLower (filter isAlnum s)).
Proof.
  assert (map asciiLower (camelOfTokens (words isSeparator [] s))
          = map asciiLower (filter isAlnum s)) as Hw.
  { rewrite lower_camelOfTokens by apply words_tokens. now rewrite concat_words. }
  rewrite toCamelCase_string, toCamelCase_basic_string, toCamelCase_fewShot_string.
  split; [|split; eexists; (split; [reflexivity | exact Hw])].
  eexists. split; [reflexivity|]. rewrite <- filter_alnum_trim.
  destruct (trim s) as [|c u]; [reflexivity|]. cbn [truthy].
  rewrite renderLowerCamel_tokens, lower_camelOfTokens by (apply tokenize_tokens; discriminate).
  now rewrite concat_tokenize.
Qed.

(** X9: the result of [toDotCase] without its dots is the letters and
    digits of the input, in their order, in lower case. *)
Theorem toDotCase_keeps_letters_and_digits (s : jsstring) :
  exists r, toDotCase (JString s) = Return r
            /\ filter (fun c => negb (isDot c)) r = map asciiLower (filter isAlnum s).
Proof.
  rewrite toDotCase_string. eexists. split; [reflexivity|].
  rewrite <- filter_alnum_trim.
  destruct (trim s) as [|c u]; [reflexivity|]. cbn [truthy].
  pose proof (@tokenize_tokens (c :: u)) as Htok.
  specialize (Htok ltac:(discriminate)).
  unfold renderDotCase. rewrite filter_join_dot by now apply map_lower_tokens.
  rewrite <- concat_tokenize, concat_map. f_equal.
  apply map_ext_in. intros p Hp. rewrite Forall_forall in Htok.
  apply toLowerCase_alnum, (Htok p Hp).
Qed.

(** X10: the result of [toDotCase] is a list of non-empty runs of
    lower-case letters and digits, joined with one dot between two of
    them. *)
Theorem toDotCase_shape (s : jsstring) :
  exists ts,
    toDotCase (JString s) = Return (join (str ".") ts)
    /\ Forall (fun t => truthy t = true /\ forallb isLowerOrDigit t = true) ts.
Proof.
  rewrite toDotCase_string.
  destruct (trim s) as [|c u]; cbn [truthy].
  - exists []. split; [reflexivity | constructor].
  - exists (map toLowerCase (tokenize (c :: u))). split; [reflexivity|].
    apply Forall_map.
    generalize (@tokenize_tokens (c :: u) ltac:(discriminate)).
    apply Forall_impl. intros t [Hne Ht].
    rewrite toLowerCase_alnum by assumption. split.
    + destruct t; [discriminate | reflexivity].
    + rewrite forallb_forall in *. intros a [b [<- Hb]]%in_map_iff.
      apply asciiLower_lowerOrDigit. auto.
Qed.

Lemma camelOfTokens_start ts :
  Forall token ts -> startsWith isUpper (camelOfTokens ts) = false.
Proof.
  intros H. destruct H as [|p0 ps [Hne Hp0] _]; [reflexivity|].
  cbn [camelOfTokens]. rewrite toLowerCase_alnum by assumption.
  destruct p0 as [|a t]; [discriminate|]. apply asciiLower_not_upper.
Qed.

(** X11: no [toCamelCase] returns a string that starts with an upper-case
    letter. *)
Theorem toCamelCase_starts_lower (s : jsstring) :
  (exists r, toCamelCase (JString s) = Return r /\ startsWith isUpper r = false)
  /\ (exists r, toCamelCase_basic (JString s) = Return r /\ startsWith isUpper r = false)
  /\ (exists r, toCamelCase_fewShot (JString s) = Return r /\ startsWith isUpper r = false).
Proof.
  rewrite toCamelCase_string, toCamelCase_basic_string, toCamelCase_fewShot_string.
  split; [|split; eexists; (split; [reflexivity | apply camelOfTokens_start, words_tokens])].
  eexists. split; [reflexivity|].
  destruct (trim s) as [|c u]; [reflexivity|]. cbn [truthy].
  rewrite renderLowerCamel_tokens. apply camelOfTokens_start, tokenize_tokens. discriminate.
Qed.

(** *** [toKebabCase] on ASCII strings *)

Lemma toKebabCase_string s : toKebabCase (JString s) = Return (kebabCase_spec s).
Proof.
  unfold toKebabCase, kebabCase_spec.
  rewrite split_fields with (p := isWhiteSpace) by apply spaceRe_runs.
  change (str "-") with [ch "-"]. now rewrite join_fields_space.
Qed.

Lemma trim_forallb (P : codeunit -> bool) s :
  forallb P s = true -> forallb P (trim s) = true.
Proof.
  destruct (trim_spec s) as (lead & trail & Hs & _).
  rewrite Hs at 1. rewrite !forallb_app.
  now intros [_ [H _]%andb_true_iff]%andb_true_iff.
Qed.

Lemma collapse_forallb (P : codeunit -> bool) :
  P (ch "-") = true ->
  forall u inRun,
    forallb (fun c => P c || isWhiteSpace c) u = true ->
    forallb (fun c => P c && negb (isWhiteSpace c)) (collapseWhiteSpace inRun u) = true.
Proof.
  intros Hy.
  assert (P (ch "-") && negb (isWhiteSpace (ch "-")) = true) as Hy'
    by (rewrite Hy; reflexivity).
  induction u as [|a t IH]; intros inRun Hu; [reflexivity|].
  simpl in Hu. apply andb_true_iff in Hu as [Ha Ht].
  cbn [collapseWhiteSpace]. destruct (isWhiteSpace a) eqn:Ew.
  - destruct inRun; [now apply IH|].
    cbn [forallb]. rewrite Hy'. now apply IH.
  - rewrite orb_false_r in Ha. cbn [forallb]. rewrite Ha, Ew. now apply IH.
Qed.

Lemma collapse_id u :
  forallb (fun c => negb (isWhiteSpace c)) u = true ->
  forall inRun, collapseWhiteSpace inRun u = u.
Proof.
  induction u as [|a t IH]; intros Hu inRun; [reflexivity|].
  simpl in Hu. apply andb_true_iff in Hu as [Ha Ht].
  cbn [collapseWhiteSpace]. apply negb_true_iff in Ha. rewrite Ha.
  now rewrite IH.
Qed.

Lemma kebabCase_units s :
  forallb isAscii s = true -> forallb isKebabUnit (kebabCase_spec s) = true.
Proof.
  intros Hs. unfold kebabCase_spec.
  assert (forallb (fun c => isAscii c && negb (isWhiteSpace c))
            (collapseWhiteSpace false (trim s)) = true) as Hc.
  { assert (forallb (fun c => isAscii c || isWhiteSpace c) (trim s) = true) as Ht.
    { generalize (trim_forallb isAscii s Hs). apply forallb_impl. now intros c ->. }
    exact (@collapse_forallb isAscii eq_refl (trim s) false Ht). }
  unfold toLowerCase.
  replace (forallb isAscii (collapseWhiteSpace false (trim s))) with true.
  - rewrite forallb_forall in *. intros c [b [<- Hb]]%in_map_iff.
    specialize (Hc b Hb). apply andb_true_iff in Hc as [Ha Hw].
    unfold isKebabUnit. now rewrite asciiLower_ascii, asciiLower_space, Hw, asciiLower_not_upper.
  - symmetry. revert Hc. apply forallb_impl. now intros c [? _]%andb_true_iff.
Qed.

(** X12: on an ASCII string the result of [toKebabCase] holds no white
    space and no upper-case letter. *)
Theorem toKebabCase_ascii_shape (s : jsstring) :
  forallb isAscii s = true ->
  exists r, toKebabCase (JString s) = Return r
            /\ forallb (fun c => negb (isWhiteSpace c) && negb (isUpper c)) r = true.
Proof.
  intros Hs. rewrite toKebabCase_string. eexists. split; [reflexivity|].
  generalize (kebabCase_units s Hs). apply forallb_impl.
  unfold isKebabUnit. intros c [[_ Hw]%andb_true_iff Hu]%andb_true_iff.
  now rewrite Hw, Hu.
Qed.

(** X13: on an ASCII string [toKebabCase] applied to its own result gives
    that result again. *)
Theorem toKebabCase_twice (s : jsstring) :
  forallb isAscii s = true ->
  exists r, toKebabCase (JString s) = Return r /\ toKebabCase (JString r) = Return r.
Proof.
  intros Hs. rewrite toKebabCase_string. eexists. split; [reflexivity|].
  pose proof (kebabCase_units s Hs) as Hk.
  set (r := kebabCase_spec s) in *.
  assert (forallb (fun c => negb (isWhiteSpace c)) r = true) as Hw.
  { revert Hk. apply forallb_impl. unfold isKebabUnit.
    now intros c [[_ ?]%andb_true_iff _]%andb_true_iff. }
  assert (forallb isAscii r = true) as Ha.
  { revert Hk. apply forallb_impl. unfold isKebabUnit.
    now intros c [[? _]%andb_true_iff _]%andb_true_iff. }
  rewrite toKebabCase_string. unfold kebabCase_spec at 1.
  rewrite trim_no_space, collapse_id by assumption.
  unfold toLowerCase. rewrite Ha. f_equal.
  apply (map_id_on asciiLower isKebabUnit); [|assumption].
  unfold isKebabUnit. intros c [_ Hu]%andb_true_iff.
  unfold asciiLower. apply negb_true_iff in Hu. now rewrite Hu.
Qed.

(** *** The case of the input *)

Lemma isAlnum_asciiLower c : isAlnum (asciiLower c) = isAlnum c.
Proof.
  destruct (isUpper c) eqn:Hu.
  - rewrite (upper_alnum _ Hu). apply lower_alnum. revert Hu. classes.
  - unfold asciiLower. now rewrite Hu.
Qed.

Lemma isSeparator_asciiLower c : isSeparator (asciiLower c) = isSeparator c.
Proof. unfold isSeparator. now rewrite isAlnum_asciiLower. Qed.

Lemma words_map_lower :
  forall s piece,
    words isSeparator (map asciiLower piece) (map asciiLower s)
    = map (map asciiLower) (words isSeparator piece s).
Proof.
  induction s as [|a t IH]; intros piece.
  - simpl. destruct piece; reflexivity.
  - cbn [map words]. rewrite isSeparator_asciiLower.
    destruct (isSeparator a).
    + destruct piece; cbn [map truthy]; now rewrite <- (IH []).
    + rewrite <- IH. now rewrite map_app.
Qed.

Lemma dropWhile_map_lower s :
  dropWhile isWhiteSpace (map asciiLower s) = map asciiLower (dropWhile isWhiteSpace s).
Proof.
  induction s as [|a t IH]; [reflexivity|]. cbn [map dropWhile].
  rewrite asciiLower_space. destruct (isWhiteSpace a); [assumption | reflexivity].
Qed.

Lemma trim_map_lower s : trim (map asciiLower s) = map asciiLower (trim s).
Proof.
  unfold trim, trimEnd. rewrite !trimStart_dropWhile.
  now rewrite dropWhile_map_lower, <- map_rev, dropWhile_map_lower, map_rev.
Qed.

Lemma existsb_separator_lower s :
  existsb isSeparator (map asciiLower s) = existsb isSeparator s.
Proof.
  induction s as [|a t IH]; [reflexivity|]. cbn [map existsb].
  now rewrite isSeparator_asciiLower, IH.
Qed.

Lemma lower_words s :
  map toLowerCase (words isSeparator [] s) = words isSeparator [] (map asciiLower s).
Proof.
  change (words isSeparator [] (map asciiLower s))
    with (words isSeparator (map asciiLower []) (map asciiLower s)).
  rewrite words_map_lower. apply map_ext_in. intros w Hw.
  pose proof (words_tokens s) as H. rewrite Forall_forall in H.
  apply toLowerCase_alnum, (H w Hw).
Qed.

Lemma toDotCase_separators s :
  existsb isSeparator (trim s) = true ->
  toDotCase (JString s) = Return (join (str ".") (words isSeparator [] (map asciiLower s))).
Proof.
  intros Hs. rewrite toDotCase_string, (existsb_truthy _ _ Hs).
  rewrite (tokenize_separators _ Hs), words_trim. unfold renderDotCase.
  now rewrite lower_words.
Qed.

Lemma separators_lower s1 s2 :
  map asciiLower s1 = map asciiLower s2 ->
  existsb isSeparator (trim s1) = existsb isSeparator (trim s2).
Proof.
  intros E. rewrite <- (existsb_separator_lower (trim s1)), <- (existsb_separator_lower (trim s2)).
  now rewrite <- !trim_map_lower, E.
Qed.

(** X16: when the trimmed input holds a separator, [toDotCase] and
    [toCamelCase] do not depend on the case of its letters: two inputs that
    are equal in lower case give the same result. *)
Theorem separators_make_case_irrelevant (s1 s2 : jsstring) :
  map asciiLower s1 = map asciiLower s2 ->
  existsb isSeparator (trim s1) = true ->
  toDotCase (JString s1) = toDotCase (JString s2)
  /\ toCamelCase (JString s1) = toCamelCase (JString s2).
Proof.
  intros E Hs1. pose proof Hs1 as Hs2. rewrite (separators_lower _ _ E) in Hs2.
  rewrite !toDotCase_separators, !toCamelCase_separators by assumption.
  rewrite E. split; [reflexivity|]. f_equal.
  rewrite <- (camelOfTokens_lower (words_tokens s1)), <- (camelOfTokens_lower (words_tokens s2)).
  now rewrite !lower_words, E.
Qed.

(** X17: the two simpler [toCamelCase] never depend on the case of the
    letters of the input. *)
Theorem basic_ignores_case (s1 s2 : jsstring) :
  map asciiLower s1 = map asciiLower s2 ->
  toCamelCase_basic (JString s1) = toCamelCase_basic (JString s2)
  /\ toCamelCase_fewShot (JString s1) = toCamelCase_fewShot (JString s2).
Proof.
  intros E. rewrite !toCamelCase_basic_string, !toCamelCase_fewShot_string.
  rewrite <- (camelOfTokens_lower (words_tokens s1)), <- (camelOfTokens_lower (words_tokens s2)).
  now rewrite !lower_words, E.
Qed.

(** *** Separator runs at the ends and between tokens *)

Lemma words_spaced :
  forall rest w0 lead trail,
    forallb isSeparator lead = true -> forallb isSeparator trail = true ->
    token w0 -> Forall separated rest ->
    words isSeparator [] (spaced lead w0 rest trail) = w0 :: map snd rest.
Proof.
  intros rest w0 lead trail Hlead Htrail Hw0 Hrest. unfold spaced.
  rewrite words_lead by assumption. clear lead Hlead. revert w0 Hw0.
  induction Hrest as [|[sep w] rest (Hne & Hsep & Hw) Hrest IH]; intros w0 Hw0.
  - cbn [map concat app]. rewrite words_trail by assumption. now apply words_token.
  - cbn [map concat fst snd] in *. rewrite <- !app_assoc.
    rewrite words_separator_run by assumption.
    now rewrite (IH w Hw), words_token.
Qed.

(** C8: a run of separators at the start, at the end, or between two
    tokens, whatever its length, gives no empty token: no token that the
    tokenizer returns on a non-empty string is empty, and on a string made
    of tokens with separator runs around and between them the tokenizer and
    the converters see exactly these tokens;
    "  multiple---separators_here " becomes "multipleSeparatorsHere". *)
Theorem separator_runs_no_empty_tokens :
  (forall c u, Forall token (tokenize (c :: u)))
  /\ (forall lead w0 rest trail,
        forallb isSeparator lead = true -> forallb isSeparator trail = true ->
        token w0 -> Forall separated rest ->
        (existsb isSeparator (spaced lead w0 rest trail) = true ->
         tokenize (spaced lead w0 rest trail) = w0 :: map snd rest)
        /\ (existsb isSeparator (trim (spaced lead w0 rest trail)) = true ->
            tokenize (trim (spaced lead w0 rest trail)) = w0 :: map snd rest
            /\ toCamelCase (JString (spaced lead w0 rest trail))
               = Return (renderLowerCamel (w0 :: map snd rest))
            /\ toDotCase (JString (spaced lead w0 rest trail))
               = Return (renderDotCase (w0 :: map snd rest)))
        /\ toCamelCase_basic (JString (spaced lead w0 rest trail))
           = Return (renderLowerCamel (w0 :: map snd rest)))
  /\ tokenize (trim (str "--a--b--")) = [str "a"; str "b"]
  /\ toCamelCase (JString (str "--a--b--")) = Return (str "aB")
  /\ toCamelCase_basic (JString (str "--a--b--")) = Return (str "aB")
  /\ toCamelCase (JString (str "  multiple---separators_here "))
     = Return (str "multipleSeparatorsHere")
  /\ toCamelCase_basic (JString (str "  multiple---separators_here "))
     = Return (str "multipleSeparatorsHere").
Proof.
  split; [|split; [|repeat split; reflexivity]].
  - intros c u. apply tokenize_tokens. discriminate.
  - intros lead w0 rest trail Hlead Htrail Hw0 Hrest.
    pose proof (@words_spaced rest w0 lead trail Hlead Htrail Hw0 Hrest) as Hw.
    split; [|split].
    + intros Hs. now rewrite tokenize_separators.
    + intros Hs.
      assert (tokenize (trim (spaced lead w0 rest trail)) = w0 :: map snd rest) as Ht
        by (now rewrite tokenize_separators, words_trim).
      rewrite toCamelCase_string, toDotCase_string, (existsb_truthy _ _ Hs), Ht.
      repeat split.
    + now rewrite toCamelCase_basic_string, Hw, renderLowerCamel_tokens.
Qed.

End Converters.

(** ** Instances of the claims with hypotheses, and the inputs on which the
    claims as first stated fail *)

(** The number 42 is rejected by the converters of refined_prompt.js and by
    [toKebabCase], and mapped to the empty string by basic_prompt.js. *)
Lemma non_string_input_42 :
  typeof (JNumber 42) <> "string"%string
  /\ (exists message, toCamelCase (fun s => s) (fun s => s) (JNumber 42) = Throw (TypeError message))
  /\ (exists message, toDotCase (fun s => s) (JNumber 42) = Throw (TypeError message))
  /\ toKebabCase (fun s => s) (JNumber 42)
     = Throw (Error "Invalid input: expected a non-null string.")
  /\ toCamelCase_basic (fun s => s) (fun s => s) (JNumber 42) = Return [].
Proof.
  assert (typeof (JNumber 42) <> "string"%string) as H by discriminate.
  split; [exact H|].
  exact (@non_string_input (fun s => s) (fun s => s) (JNumber 42) H).
Defined.

(** C1 as first stated fails: [toCamelCase] of basic_prompt.js returns the
    empty string on [null]. *)
Lemma basic_returns_on_null :
  typeof JNull <> "string"%string
  /\ toCamelCase_basic (fun s => s) (fun s => s) JNull = Return []
  /\ ~ (exists e, toCamelCase_basic (fun s => s) (fun s => s) JNull = Throw e).
Proof.
  split; [discriminate|]. split; [reflexivity|]. intros [e He]. discriminate.
Qed.

(** "userId_2" holds a separator after trimming and is split on it only. *)
Lemma separators_select_split_userId_2 :
  existsb isSeparator (trim (str "userId_2")) = true
  /\ tokenize (trim (str "userId_2"))
     = filter truthy (String_split (trim (str "userId_2")) sepRe)
  /\ tokenize (trim (str "userId_2")) = words isSeparator [] (trim (str "userId_2"))
  /\ toCamelCase (fun s => s) (fun s => s) (JString (str "userId_2"))
     = Return (renderLowerCamel (fun s => s) (fun s => s)
                 (words isSeparator [] (trim (str "userId_2"))))
  /\ toDotCase (fun s => s) (JString (str "userId_2"))
     = Return (renderDotCase (fun s => s) (words isSeparator [] (trim (str "userId_2")))).
Proof.
  assert (existsb isSeparator (trim (str "userId_2")) = true) as H by reflexivity.
  split; [exact H|].
  exact (proj1 (separators_select_split (fun s => s) (fun s => s)) (str "userId_2") H).
Defined.

(** C2 as first stated fails: " userId " holds two spaces, yet after the
    trim no separator is left and the boundary scan cuts "userId" into
    "user" and "Id", where the split on separators gives "userId". *)
Lemma boundary_scan_after_trim :
  existsb isSeparator (str " userId ") = true
  /\ tokenize (trim (str " userId ")) = [str "user"; str "Id"]
  /\ filter truthy (String_split (trim (str " userId ")) sepRe) = [str "userId"]
  /\ filter truthy (String_split (str " userId ") sepRe) = [str "userId"]
  /\ toCamelCase (fun s => s) (fun s => s) (JString (str " userId ")) = Return (str "userId")
  /\ renderLowerCamel (fun s => s) (fun s => s) [str "userId"] = str "userid".
Proof. repeat split; reflexivity. Qed.

(** In "getXMLHttp" the run "XMLH" after "get" gives the token "XML". *)
Lemma acronym_boundary_getXMLHttp :
  tokenize (str "get" ++ str "XMLH" ++ ch "t" :: str "tp")
  = (if truthy (str "get") then tokenize (str "get") else [])
      ++ removelast (str "XMLH")
      :: tokenize (last (str "XMLH") (ch "t") :: ch "t" :: str "tp").
Proof.
  refine (proj1 (acronym_boundary (fun s => s) (fun s => s))
            (str "get") (str "XMLH") (ch "t") (str "tp") _ _ _ _ _ _);
    solve [reflexivity | simpl; lia].
Defined.

(** Three spaces give the empty string. *)
Lemma white_space_only_input_spaces :
  forallb isWhiteSpace (str "   ") = true
  /\ toCamelCase (fun s => s) (fun s => s) (JString (str "   ")) = Return []
  /\ toDotCase (fun s => s) (JString (str "   ")) = Return []
  /\ toKebabCase (fun s => s) (JString (str "   ")) = Return []
  /\ toCamelCase_basic (fun s => s) (fun s => s) (JString (str "   ")) = Return [].
Proof.
  assert (forallb isWhiteSpace (str "   ") = true) as H by reflexivity.
  split; [exact H|].
  exact (@white_space_only_input (fun s => s) (fun s => s) (str "   ") H).
Defined.

(** "--a--b--": two hyphens before "a", between "a" and "b", and after
    "b"; the tokens are "a" and "b". *)
Lemma separator_runs_dashes :
  tokenize (trim (spaced (str "--") (str "a") [(str "--", str "b")] (str "--")))
  = str "a" :: map snd [(str "--", str "b")]
  /\ toCamelCase (fun s => s) (fun s => s)
       (JString (spaced (str "--") (str "a") [(str "--", str "b")] (str "--")))
     = Return (renderLowerCamel (fun s => s) (fun s => s)
                 (str "a" :: map snd [(str "--", str "b")]))
  /\ toDotCase (fun s => s)
       (JString (spaced (str "--") (str "a") [(str "--", str "b")] (str "--")))
     = Return (renderDotCase (fun s => s) (str "a" :: map snd [(str "--", str "b")])).
Proof.
  refine (proj1 (proj2 (proj1 (proj2 (separator_runs_no_empty_tokens (fun s => s) (fun s => s)))
                          (str "--") (str "a") [(str "--", str "b")] (str "--") _ _ _ _)) _).
  - reflexivity.
  - reflexivity.
  - split; reflexivity.
  - constructor; [|constructor].
    unfold separated, token. repeat split; solve [reflexivity | discriminate].
  - reflexivity.
Defined.

(** ** Instances of the further properties with hypotheses *)

(** "user_id" holds a separator: the three [toCamelCase] agree on it. *)
Lemma refined_agrees_with_basic_user_id :
  existsb isSeparator (trim (str "user_id")) = true
  /\ toCamelCase (fun s => s) (fun s => s) (JString (str "user_id"))
     = toCamelCase_basic (fun s => s) (fun s => s) (JString (str "user_id"))
  /\ toCamelCase (fun s => s) (fun s => s) (JString (str "user_id"))
     = toCamelCase_fewShot (fun s => s) (fun s => s) (fun _ => Return []) (JString (str "user_id")).
Proof.
  assert (existsb isSeparator (trim (str "user_id")) = true) as H by reflexivity.
  split; [exact H|].
  exact (@refined_agrees_with_basic (fun s => s) (fun s => s) (fun _ => Return [])
           (str "user_id") H).
Defined.

(** "userId" comes out as "userid". *)
Lemma basic_lowercases_userId :
  forallb isAlnum (trim (str "userId")) = true
  /\ toCamelCase_basic (fun s => s) (fun s => s) (JString (str "userId"))
     = Return (map asciiLower (trim (str "userId")))
  /\ toCamelCase_fewShot (fun s => s) (fun s => s) (fun _ => Return []) (JString (str "userId"))
     = Return (map asciiLower (trim (str "userId"))).
Proof.
  assert (forallb isAlnum (trim (str "userId")) = true) as H by reflexivity.
  split; [exact H|].
  exact (@basic_lowercases_identifier (fun s => s) (fun s => s) (fun _ => Return [])
           (str "userId") H).
Defined.

(** The number 42 is truthy and has no [split]. *)
Lemma fewShot_non_string_42 :
  toCamelCase_fewShot (fun s => s) (fun s => s) (fun _ => Return []) (JNumber 42)
  = if toBoolean (JNumber 42) then Throw (TypeError "input.split is not a function")
    else Return [].
Proof.
  refine (@fewShot_non_string (fun s => s) (fun s => s) (fun _ => Return []) (JNumber 42) _ _);
    [discriminate | intros name; discriminate].
Defined.

(** "first name" gives "first.name", which holds a dot. *)
Lemma toDotCase_twice_first_name :
  toDotCase (fun s => s) (JString (str "first.name")) = Return (str "first.name").
Proof.
  refine (@toDotCase_twice (fun s => s) (str "first name") (str "first.name") _ _);
    [reflexivity | left; reflexivity].
Defined.

Lemma toCamelCase_of_toDotCase_first_name :
  toCamelCase (fun s => s) (fun s => s) (JString (str "first.name"))
  = toCamelCase (fun s => s) (fun s => s) (JString (str "first name")).
Proof.
  refine (@toCamelCase_of_toDotCase (fun s => s) (fun s => s)
            (str "first name") (str "first.name") _ _);
    [reflexivity | left; reflexivity].
Defined.

Lemma toKebabCase_ascii_shape_hello :
  exists r, toKebabCase (fun s => s) (JString (str "Hello   World")) = Return r
            /\ forallb (fun c => negb (isWhiteSpace c) && negb (isUpper c)) r = true.
Proof.
  refine (@toKebabCase_ascii_shape (fun s => s) (str "Hello   World") _). reflexivity.
Defined.

Lemma toKebabCase_twice_hello :
  exists r, toKebabCase (fun s => s) (JString (str "Hello   World")) = Return r
            /\ toKebabCase (fun s => s) (JString r) = Return r.
Proof.
  refine (@toKebabCase_twice (fun s => s) (str "Hello   World") _). reflexivity.
Defined.

(** "User_ID" and "user_id" are equal in lower case. *)
Lemma separators_make_case_irrelevant_user_id :
  toDotCase (fun s => s) (JString (str "User_ID")) = toDotCase (fun s => s) (JString (str "user_id"))
  /\ toCamelCase (fun s => s) (fun s => s) (JString (str "User_ID"))
     = toCamelCase (fun s => s) (fun s => s) (JString (str "user_id")).
Proof.
  refine (@separators_make_case_irrelevant (fun s => s) (fun s => s)
            (str "User_ID") (str "user_id") _ _); reflexivity.
Defined.

(** "userId" and "USERID" are equal in lower case. *)
Lemma basic_ignores_case_userId :
  toCamelCase_basic (fun s => s) (fun s => s) (JString (str "userId"))
  = toCamelCase_basic (fun s => s) (fun s => s) (JString (str "USERID"))
  /\ toCamelCase_fewShot (fun s => s) (fun s => s) (fun _ => Return []) (JString (str "userId"))
     = toCamelCase_fewShot (fun s => s) (fun s => s) (fun _ => Return []) (JString (str "USERID")).
Proof.
  refine (@basic_ignores_case (fun s => s) (fun s => s) (fun _ => Return [])
            (str "userId") (str "USERID") _); reflexivity.
Defined.

(** ** The task list of the server *)

Lemma accepted_cons req reqs :
  TaskServer.accepted (req :: reqs) = TaskServer.accepted [req] ++ TaskServer.accepted reqs.
Proof.
  destruct req as [| |text]; try reflexivity.
  destruct text; try reflexivity. destruct s; reflexivity.
Qed.

Lemma handle_tasks tasks req :
  fst (TaskServer.handle tasks req) = tasks ++ TaskServer.accepted [req].
Proof.
  destruct req as [| |text]; cbn [TaskServer.handle fst TaskServer.accepted];
    rewrite ?app_nil_r; try reflexivity.
  destruct text; cbn [typeof];
    try (rewrite orb_true_r; cbn [fst]; now rewrite app_nil_r).
  destruct s as [|c s']; [cbn; now rewrite app_nil_r | reflexivity].
Qed.

Lemma serve_tasks :
  forall reqs tasks,
    fst (TaskServer.serve tasks reqs) = tasks ++ TaskServer.accepted reqs.
Proof.
  induction reqs as [|req reqs IH]; intros tasks.
  - simpl. now rewrite app_nil_r.
  - cbn [TaskServer.serve]. pose proof (handle_tasks tasks req) as Hh.
    destruct (TaskServer.handle tasks req) as [tasks' res]. cbn [fst] in Hh.
    specialize (IH tasks'). destruct (TaskServer.serve tasks' reqs) as [tasks'' ress].
    cbn [fst] in *. subst tasks'' tasks'. rewrite (accepted_cons req reqs). now rewrite app_assoc.
Qed.

(** X14: whatever requests are served, the task list is the list before
    them followed by the non-empty strings that were posted, in the order of
    the requests: a request adds at the end or changes nothing, and
    [GET /tasks] answers with exactly that list. *)
Theorem serve_appends_accepted :
  forall reqs tasks,
    fst (TaskServer.serve tasks reqs) = tasks ++ TaskServer.accepted reqs
    /\ snd (TaskServer.handle (fst (TaskServer.serve tasks reqs)) TaskServer.GetTasks)
       = TaskServer.mkResponse 200 (TaskServer.JsonTasks (tasks ++ TaskServer.accepted reqs)).
Proof.
  intros reqs tasks. split; [apply serve_tasks|].
  cbn [TaskServer.handle snd]. now rewrite serve_tasks.
Qed.

Lemma accepted_tasks reqs : Forall TaskServer.isTask (TaskServer.accepted reqs).
Proof.
  induction reqs as [|req reqs IH]; [constructor|].
  rewrite (accepted_cons req reqs). apply Forall_app. split; [|assumption].
  destruct req as [| |text]; try constructor.
  destruct text; try constructor. destruct s as [|c s']; constructor; [|constructor].
  now exists c, s'.
Qed.

(** X15: whatever requests are served from the start, every task in the
    list is a non-empty string. *)
Theorem tasks_are_non_empty_strings (reqs : list TaskServer.Request) :
  Forall TaskServer.isTask (fst (TaskServer.serve TaskServer.initialTasks reqs)).
Proof.
  rewrite serve_tasks.
  apply Forall_app. split; [|apply accepted_tasks].
  unfold TaskServer.initialTasks.
  repeat constructor; eexists; eexists; reflexivity.
Qed.
